(** * kepify: a shallow embedding of [cmd/kepify/main.go]

    The program walks a directory of KEP documents, parses every Markdown
    file it keeps, and writes all proposals into one JSON object keyed by
    the MD5 of ["<owning-sig>:<title>"].

    Go strings are byte sequences: they are modelled as [string], whose
    characters are the 256 byte values.  A byte that takes part in
    arithmetic is a [Z] in [0, 256). *)

From Stdlib Require Import ZArith Ascii String List Lia Bool.
From stdpp Require Import base tactics option list strings gmap pretty.

Import ListNotations.
Local Open Scope Z_scope.

(** ** Bytes and text *)

Definition byte_of_ascii (a : ascii) : Z := Z.of_N (N_of_ascii a).
Definition ascii_of_byte (b : Z) : ascii := ascii_of_N (Z.to_N b).

(** [[]byte(s)] *)
Definition bytes_of_string (s : string) : list Z :=
  map byte_of_ascii (list_ascii_of_string s).

(** [string(b)] *)
Definition string_of_bytes (b : list Z) : string :=
  string_of_list_ascii (map ascii_of_byte b).

Definition chr (b : Z) : string := String (ascii_of_byte b) EmptyString.

Definition isByte (b : Z) : Prop := 0 <= b < 256.

(** The characters Go writes as the escapes for tab, newline, double quote
    and backslash. *)
Definition tab : string := chr 9.
Definition nl : string := chr 10.
Definition dq : string := chr 34.
Definition bsl : string := chr 92.

(** ** [crypto/md5]: the checksum of RFC 1321 over 32-bit words

    Words are [Z] values kept in [0, 2^32) by an explicit reduction after
    every addition and rotation. *)

Module md5.

Definition w32 (x : Z) : Z := x mod 2 ^ 32.
Definition add32 (x y : Z) : Z := w32 (x + y).
Definition not32 (x : Z) : Z := Z.lxor x 0xffffffff.
Definition rotl32 (x : Z) (c : Z) : Z :=
  w32 (Z.lor (Z.shiftl x c) (Z.shiftr x (32 - c))).

Definition shifts : list Z :=
  [ 7; 12; 17; 22; 7; 12; 17; 22; 7; 12; 17; 22; 7; 12; 17; 22;
    5; 9; 14; 20; 5; 9; 14; 20; 5; 9; 14; 20; 5; 9; 14; 20;
    4; 11; 16; 23; 4; 11; 16; 23; 4; 11; 16; 23; 4; 11; 16; 23;
    6; 10; 15; 21; 6; 10; 15; 21; 6; 10; 15; 21; 6; 10; 15; 21 ].

(** [K[i] = floor (2^32 * |sin (i + 1)|)] *)
Definition K : list Z :=
  [ 0xd76aa478; 0xe8c7b756; 0x242070db; 0xc1bdceee;
    0xf57c0faf; 0x4787c62a; 0xa8304613; 0xfd469501;
    0x698098d8; 0x8b44f7af; 0xffff5bb1; 0x895cd7be;
    0x6b901122; 0xfd987193; 0xa679438e; 0x49b40821;
    0xf61e2562; 0xc040b340; 0x265e5a51; 0xe9b6c7aa;
    0xd62f105d; 0x02441453; 0xd8a1e681; 0xe7d3fbc8;
    0x21e1cde6; 0xc33707d6; 0xf4d50d87; 0x455a14ed;
    0xa9e3e905; 0xfcefa3f8; 0x676f02d9; 0x8d2a4c8a;
    0xfffa3942; 0x8771f681; 0x6d9d6122; 0xfde5380c;
    0xa4beea44; 0x4bdecfa9; 0xf6bb4b60; 0xbebfbc70;
    0x289b7ec6; 0xeaa127fa; 0xd4ef3085; 0x04881d05;
    0xd9d4d039; 0xe6db99e5; 0x1fa27cf8; 0xc4ac5665;
    0xf4292244; 0x432aff97; 0xab9423a7; 0xfc93a039;
    0x655b59c3; 0x8f0ccc92; 0xffeff47d; 0x85845dd1;
    0x6fa87e4f; 0xfe2ce6e0; 0xa3014314; 0x4e0811a1;
    0xf7537e82; 0xbd3af235; 0x2ad7d2bb; 0xeb86d391 ].

Record digest := Digest { dA : Z; dB : Z; dC : Z; dD : Z }.

Definition init : digest :=
  Digest 0x67452301 0xefcdab89 0x98badcfe 0x10325476.

(** One of the 64 operations on a block [M] of sixteen words. *)
Definition step (M : list Z) (d : digest) (i : nat) : digest :=
  let '(Digest a b c d) := d in
  let iz := Z.of_nat i in
  let '(f, g) :=
    if iz <? 16 then (Z.lor (Z.land b c) (Z.land (not32 b) d), iz)
    else if iz <? 32 then
      (Z.lor (Z.land d b) (Z.land (not32 d) c), (5 * iz + 1) mod 16)
    else if iz <? 48 then (Z.lxor (Z.lxor b c) d, (3 * iz + 5) mod 16)
    else (Z.lxor c (Z.lor b (not32 d)), (7 * iz) mod 16) in
  let f' := add32 (add32 (add32 f a) (nth i K 0)) (nth (Z.to_nat g) M 0) in
  Digest d (add32 b (rotl32 f' (nth i shifts 0))) b c.

(** Little-endian words of a block and little-endian bytes of a word. *)
Fixpoint words (b : list Z) : list Z :=
  match b with
  | b0 :: b1 :: b2 :: b3 :: rest =>
      (b0 + 256 * b1 + 65536 * b2 + 16777216 * b3) :: words rest
  | _ => []
  end.

Definition le_bytes (n : nat) (x : Z) : list Z :=
  map (fun k => (x / 256 ^ Z.of_nat k) mod 256) (seq 0 n).

Definition block (d : digest) (blk : list Z) : digest :=
  let r := fold_left (step (words blk)) (seq 0 64) d in
  Digest (add32 (dA d) (dA r)) (add32 (dB d) (dB r))
         (add32 (dC d) (dC r)) (add32 (dD d) (dD r)).

(** Padding: one [0x80] byte, zeros up to 56 modulo 64, then the length in
    bits as eight little-endian bytes. *)
Definition pad (msg : list Z) : list Z :=
  let len := Z.of_nat (length msg) in
  let zeros := Z.to_nat ((55 - len) mod 64) in
  msg ++ [0x80] ++ repeat 0 zeros ++ le_bytes 8 ((8 * len) mod 2 ^ 64).

Fixpoint blocks (n : nat) (d : digest) (data : list Z) : digest :=
  match n with
  | O => d
  | S n' => blocks n' (block d (take 64 data)) (drop 64 data)
  end.

(** [md5.Sum(data)]: the sixteen bytes of the checksum. *)
Definition Sum (data : list Z) : list Z :=
  let p := pad data in
  let d := blocks (length p / 64)%nat init p in
  le_bytes 4 (dA d) ++ le_bytes 4 (dB d) ++ le_bytes 4 (dC d)
    ++ le_bytes 4 (dD d).

End md5.

(** ** [fmt]'s [%x] on a byte array: two lowercase hex digits per byte *)

Definition hexdigits : string := "0123456789abcdef".

Definition hexdigit (n : Z) : string :=
  match String.get (Z.to_nat n) hexdigits with
  | Some c => String c EmptyString
  | None => EmptyString
  end.

Definition hex_byte (b : Z) : string := hexdigit (b / 16) +:+ hexdigit (b mod 16).

Definition hexEncode (b : list Z) : string :=
  foldr (fun x acc => hex_byte x +:+ acc) EmptyString b.

(** ** [unicode/utf8]: decoding one rune from the head of a byte string *)

Module utf8.

Definition RuneError : Z := 0xFFFD.

Definition between (lo hi b : Z) : bool := (lo <=? b) && (b <=? hi).

(** Continuation byte. *)
Definition cont (b : Z) : bool := between 0x80 0xBF b.

(** For a leading byte above [0x7F]: the length of the sequence and the
    range accepted for the second byte; [None] for a byte that cannot
    start a sequence. *)
Definition lead (b : Z) : option (nat * Z * Z) :=
  if between 0xC2 0xDF b then Some (2%nat, 0x80, 0xBF)
  else if b =? 0xE0 then Some (3%nat, 0xA0, 0xBF)
  else if b =? 0xED then Some (3%nat, 0x80, 0x9F)
  else if between 0xE1 0xEF b then Some (3%nat, 0x80, 0xBF)
  else if b =? 0xF0 then Some (4%nat, 0x90, 0xBF)
  else if between 0xF1 0xF3 b then Some (4%nat, 0x80, 0xBF)
  else if b =? 0xF4 then Some (4%nat, 0x80, 0x8F)
  else None.

(** [utf8.DecodeRuneInString]: the rune and its width in bytes; an invalid
    or truncated sequence is [(RuneError, 1)], the empty string
    [(RuneError, 0)]. *)
Definition DecodeRune (s : list Z) : Z * nat :=
  match s with
  | [] => (RuneError, 0%nat)
  | s0 :: t =>
      if s0 <? 0x80 then (s0, 1%nat)
      else
        match lead s0, t with
        | Some (2%nat, lo, hi), s1 :: _ =>
            if between lo hi s1
            then ((s0 mod 32) * 64 + s1 mod 64, 2%nat)
            else (RuneError, 1%nat)
        | Some (3%nat, lo, hi), s1 :: s2 :: _ =>
            if between lo hi s1 && cont s2
            then ((s0 mod 16) * 4096 + (s1 mod 64) * 64 + s2 mod 64, 3%nat)
            else (RuneError, 1%nat)
        | Some (4%nat, lo, hi), s1 :: s2 :: s3 :: _ =>
            if between lo hi s1 && cont s2 && cont s3
            then ((s0 mod 8) * 262144 + (s1 mod 64) * 4096
                  + (s2 mod 64) * 64 + s3 mod 64, 4%nat)
            else (RuneError, 1%nat)
        | _, _ => (RuneError, 1%nat)
        end
  end.

(** [utf8.AppendRune] for a code point below [0x110000]; a surrogate is
    written as [RuneError]. *)
Definition EncodeRune (c : Z) : list Z :=
  if c <? 0x80 then [c]
  else if c <? 0x800 then [0xC0 + c / 64; 0x80 + c mod 64]
  else if between 0xD800 0xDFFF c then [0xEF; 0xBF; 0xBD]
  else if c <? 0x10000 then
    [0xE0 + c / 4096; 0x80 + (c / 64) mod 64; 0x80 + c mod 64]
  else
    [0xF0 + c / 262144; 0x80 + (c / 4096) mod 64; 0x80 + (c / 64) mod 64;
     0x80 + c mod 64].

End utf8.

(** ** [encoding/json]: what [json.Marshal] writes for a string and for a
    slice of strings *)

Module json.

(** [htmlSafeSet]: the ASCII bytes copied as they are. *)
Definition htmlSafe (b : Z) : bool :=
  (0x20 <=? b) && (b <? 0x80)
  && negb (b =? 34) && negb (b =? 38) && negb (b =? 60) && negb (b =? 62)
  && negb (b =? 92).

(** The escape written for an ASCII byte outside [htmlSafeSet]. *)
Definition escape (b : Z) : string :=
  bsl +:+
  (if (b =? 92) || (b =? 34) then chr b
   else if b =? 10 then "n"
   else if b =? 13 then "r"
   else if b =? 9 then "t"
   else "u00" +:+ hexdigit (b / 16) +:+ hexdigit (b mod 16)).

(** The loop of [encodeState.string]: [fuel] bounds the number of runes,
    and the length of the input is enough. *)
Fixpoint encodeLoop (fuel : nat) (s : list Z) : string :=
  match fuel, s with
  | O, _ | _, [] => EmptyString
  | S fuel', b :: t =>
      if b <? 0x80 then
        (if htmlSafe b then chr b else escape b) +:+ encodeLoop fuel' t
      else
        let '(c, size) := utf8.DecodeRune s in
        if (c =? utf8.RuneError) && (size =? 1)%nat then
          bsl +:+ "ufffd" +:+ encodeLoop fuel' (drop size s)
        else if (c =? 0x2028) || (c =? 0x2029) then
          bsl +:+ "u202" +:+ hexdigit (c mod 16)
            +:+ encodeLoop fuel' (drop size s)
        else
          string_of_bytes (take size s) +:+ encodeLoop fuel' (drop size s)
  end.

(** [json.Marshal(s)] for a string [s]; it never fails. *)
Definition MarshalString (s : string) : string :=
  let b := bytes_of_string s in
  dq +:+ encodeLoop (length b) b +:+ dq.

Fixpoint joinComma (l : list string) : string :=
  match l with
  | [] => EmptyString
  | [x] => x
  | x :: rest => x +:+ "," +:+ joinComma rest
  end.

(** [json.Marshal(a)] for [a] of type [[]string]: a nil slice ([None]) is
    written [null], any other slice as an array. *)
Definition MarshalStrings (a : option (list string)) : string :=
  match a with
  | None => "null"
  | Some l => "[" +:+ joinComma (map MarshalString l) +:+ "]"
  end.

(** *** Reading JSON back (RFC 8259) *)

Definition hexval (b : Z) : option Z :=
  if utf8.between 48 57 b then Some (b - 48)
  else if utf8.between 97 102 b then Some (b - 87)
  else if utf8.between 65 70 b then Some (b - 55)
  else None.

Definition hex4 (s : list Z) : option (Z * list Z) :=
  match s with
  | a :: b :: c :: d :: rest =>
      match hexval a, hexval b, hexval c, hexval d with
      | Some a, Some b, Some c, Some d =>
          Some (a * 4096 + b * 256 + c * 16 + d, rest)
      | _, _, _, _ => None
      end
  | _ => None
  end.

(** A byte that stands for itself inside a string literal. *)
Definition plain (b : Z) : bool :=
  (0x20 <=? b) && negb (b =? 34) && negb (b =? 92).

(** The characters of a string literal after its opening quote: the bytes
    they stand for and the input left after the closing quote.  [fuel]
    bounds the number of characters read. *)
Fixpoint stringBody (fuel : nat) (s : list Z) : option (list Z * list Z) :=
  match fuel, s with
  | O, _ | _, [] => None
  | S fuel', b :: t =>
      if b =? 34 then Some ([], t)
      else if b <? 0x20 then None
      else if b =? 92 then
        match t with
        | e :: t' =>
            let simple (c : Z) :=
              '(v, rest) ← stringBody fuel' t'; Some (c :: v, rest) in
            if e =? 34 then simple 34
            else if e =? 92 then simple 92
            else if e =? 47 then simple 47
            else if e =? 98 then simple 8
            else if e =? 102 then simple 12
            else if e =? 110 then simple 10
            else if e =? 114 then simple 13
            else if e =? 116 then simple 9
            else if e =? 117 then
              '(c, t'') ← hex4 t';
              let single :=
                '(v, rest) ← stringBody fuel' t'';
                Some (utf8.EncodeRune c ++ v, rest) in
              if utf8.between 0xD800 0xDBFF c then
                match t'' with
                | 92 :: 117 :: t3 =>
                    match hex4 t3 with
                    | Some (c2, t4) =>
                        if utf8.between 0xDC00 0xDFFF c2 then
                          '(v, rest) ← stringBody fuel' t4;
                          Some (utf8.EncodeRune
                                  (0x10000 + (c - 0xD800) * 1024
                                   + (c2 - 0xDC00)) ++ v, rest)
                        else single
                    | None => single
                    end
                | _ => single
                end
              else single
            else None
        | [] => None
        end
      else '(v, rest) ← stringBody fuel' t; Some (b :: v, rest)
  end.

(** The text [text], followed by a closing quote and [rest], is read as
    the characters of a string literal, and [rest] is what is left. *)
Definition reads (fuel : nat) (text rest : list Z) : Prop :=
  ∃ v, stringBody fuel (text ++ 34 :: rest) = Some (v, rest).

(** Reading a complete string literal: [Some v] when the text is exactly
    one JSON string, which stands for [v]. *)
Definition Unquote (text : string) : option string :=
  match bytes_of_string text with
  | 34 :: t =>
      match stringBody (length t) t with
      | Some (v, []) => Some (string_of_bytes v)
      | _ => None
      end
  | _ => None
  end.

Fixpoint skipWs (s : list Z) : list Z :=
  match s with
  | b :: t =>
      if (b =? 32) || (b =? 9) || (b =? 10) || (b =? 13) then skipWs t else s
  | [] => []
  end.

Definition isDigit (b : Z) : bool := utf8.between 48 57 b.

Fixpoint skipDigits (s : list Z) : list Z :=
  match s with
  | b :: t => if isDigit b then skipDigits t else s
  | [] => []
  end.

(** At least one digit. *)
Definition digits1 (s : list Z) : option (list Z) :=
  match s with
  | b :: t => if isDigit b then Some (skipDigits t) else None
  | [] => None
  end.

Definition number (s : list Z) : option (list Z) :=
  let s1 := match s with 45 :: t => t | _ => s end in
  s2 ← match s1 with
       | 48 :: t => Some t
       | _ => digits1 s1
       end;
  s3 ← match s2 with
       | 46 :: t => digits1 t
       | _ => Some s2
       end;
  match s3 with
  | e :: t =>
      if (e =? 101) || (e =? 69) then
        match t with
        | sg :: t' => if (sg =? 43) || (sg =? 45) then digits1 t' else digits1 t
        | [] => None
        end
      else Some s3
  | [] => Some s3
  end.

Fixpoint stripPrefix (p s : list Z) : option (list Z) :=
  match p, s with
  | [], _ => Some s
  | a :: p', b :: s' => if a =? b then stripPrefix p' s' else None
  | _ :: _, [] => None
  end.

(** A recogniser for JSON values: the input left after one value and the
    white space around it.  [members] reads the members of an object after
    its opening brace, [elements] the elements of an array. *)
Fixpoint value (fuel : nat) (s : list Z) : option (list Z) :=
  match fuel with
  | O => None
  | S fuel' =>
      match skipWs s with
      | 123 :: t =>
          match skipWs t with
          | 125 :: r => Some (skipWs r)
          | _ => members fuel' t
          end
      | 91 :: t =>
          match skipWs t with
          | 93 :: r => Some (skipWs r)
          | _ => elements fuel' t
          end
      | 34 :: t => '(_, r) ← stringBody (length t) t; Some (skipWs r)
      | 116 :: t => skipWs <$> stripPrefix [114; 117; 101] t
      | 102 :: t => skipWs <$> stripPrefix [97; 108; 115; 101] t
      | 110 :: t => skipWs <$> stripPrefix [117; 108; 108] t
      | s' => skipWs <$> number s'
      end
  end
with members (fuel : nat) (s : list Z) : option (list Z) :=
  match fuel with
  | O => None
  | S fuel' =>
      match skipWs s with
      | 34 :: t =>
          '(_, r) ← stringBody (length t) t;
          match skipWs r with
          | 58 :: r' =>
              match value fuel' r' with
              | Some (44 :: r'') => members fuel' r''
              | Some (125 :: r'') => Some (skipWs r'')
              | _ => None
              end
          | _ => None
          end
      | _ => None
      end
  end
with elements (fuel : nat) (s : list Z) : option (list Z) :=
  match fuel with
  | O => None
  | S fuel' =>
      match value fuel' s with
      | Some (44 :: r) => elements fuel' r
      | Some (93 :: r) => Some (skipWs r)
      | _ => None
      end
  end.

(** [json.Valid]: the text is exactly one JSON value. *)
Definition Valid (text : string) : bool :=
  let b := bytes_of_string text in
  match value (S (length b)) b with
  | Some [] => true
  | _ => false
  end.

End json.

(** ** Errors and formatted printing *)

Module errors.

(** An error value is represented by the message its [Error()] method
    returns. *)
Record error := New { Error : string }.

End errors.

Abbreviation error := errors.error.

Module fmt.

(** The operands handed to the printing functions of this program. *)
Inductive arg :=
| Str (s : string)
| Bytes (b : list Z)
| Int (n : Z)
| Err (e : error).

Section verbs.

(** [strconv.Quote], which [%q] applies to a string operand. *)
Variable Quote : string -> string.

(** One verb applied to one operand.  The pairs of verb and operand that
    [main.go] uses are written as Go prints them; any other pair yields
    the marker [%!verb(BADARG)] and a missing operand [%!verb(MISSING)]. *)
Definition verb (v : ascii) (a : option arg) : string :=
  let bad (why : string) := "%!" +:+ String v EmptyString +:+ why in
  match a with
  | None => bad "(MISSING)"
  | Some a =>
      if Ascii.eqb v "s" then
        match a with
        | Str s => s
        | Bytes b => string_of_bytes b
        | Err e => errors.Error e
        | Int _ => bad "(BADARG)"
        end
      else if Ascii.eqb v "v" then
        match a with
        | Str s => s
        | Err e => errors.Error e
        | Int n => pretty n
        | Bytes _ => bad "(BADARG)"
        end
      else if Ascii.eqb v "d" then
        match a with
        | Int n => pretty n
        | _ => bad "(BADARG)"
        end
      else if Ascii.eqb v "q" then
        match a with
        | Str s => Quote s
        | Err e => Quote (errors.Error e)
        | _ => bad "(BADARG)"
        end
      else if Ascii.eqb v "x" then
        match a with
        | Bytes b => hexEncode b
        | Str s => hexEncode (bytes_of_string s)
        | _ => bad "(BADARG)"
        end
      else bad "(BADARG)"
  end.

(** [fmt.Sprintf]: the format is copied, and each [%verb] is replaced by
    the next operand printed with that verb. *)
Fixpoint Sprintf (format : string) (args : list arg) : string :=
  match format with
  | EmptyString => EmptyString
  | String c rest =>
      if Ascii.eqb c "%" then
        match rest with
        | String v rest' =>
            if Ascii.eqb v "%" then String v (Sprintf rest' args)
            else verb v (head args) +:+ Sprintf rest' (tail args)
        | EmptyString => "%!(NOVERB)"
        end
      else String c (Sprintf rest args)
  end.

(** [fmt.Errorf] *)
Definition Errorf (format : string) (args : list arg) : error :=
  errors.New (Sprintf format args).

End verbs.

End fmt.

Import fmt.

(** ** The [keps] package *)

(** Modelled from the spec: the record type [keps.Proposal], whose
    declaration is not part of [cmd/kepify].  The fields are those of the
    spec's data model that [main.go] reads, at the Go types it uses them
    with: strings, slices of strings, and an error.  A field of type
    [[]string] is an [option]: [None] is the nil slice a document leaves
    behind when it does not set the field, [Some l] a slice with the
    elements of [l]. *)
Record Proposal := {
  Title : string;
  OwningSIG : string;
  ParticipatingSIGs : option (list string);
  Reviewers : option (list string);
  Authors : option (list string);
  Editor : string;
  CreationDate : string;
  LastUpdated : string;
  Status : string;
  SeeAlso : option (list string);
  Replaces : option (list string);
  SupersededBy : option (list string);
  Contents : string;
  Error : option error
}.

Abbreviation Proposals := (list Proposal).

(** [len(a)] for a slice of strings: a nil slice has no elements. *)
Definition len (a : option (list string)) : nat := length (default [] a).

(** Modelled from the spec: [Proposals.AddProposal] of the [keps] package,
    whose source is not part of [cmd/kepify].  It appends the record to the
    ordered collection unconditionally. *)
Definition AddProposal (p : Proposals) (kep : Proposal) : Proposals :=
  p ++ [kep].

(** ** The operating system as the program sees it *)

Record FileInfo := { Name : string; IsDir : bool }.

(** What [filepath.Walk] meets below a path: a file, a directory with its
    entries in the order [Walk] visits them, a directory whose listing
    fails, or a name on which [lstat] fails. *)
#[local] Unset Elimination Schemes.
Inductive Node :=
| File (name : string)
| Dir (name : string) (entries : list Node)
| Unreadable (name : string) (err : error)
| Broken (name : string) (err : error).
#[local] Set Elimination Schemes.

Definition nodeName (n : Node) : string :=
  match n with
  | File name | Dir name _ | Unreadable name _ | Broken name _ => name
  end.

Record OS := {
  (** [os.IsNotExist] of the error of [os.Stat] *)
  StatNotExist : string -> bool;
  (** the tree [filepath.Walk] finds at a root path *)
  Tree : string -> Node;
  (** [os.Open] and the bytes read from the file *)
  Open : string -> error + string;
  (** [os.Create]: the error, if the file cannot be created *)
  Create : string -> option error
}.

(** What a run changes: the two output streams and the files written. *)
Record World := {
  stdout : string;
  stderr : string;
  disk : gmap string string
}.

Inductive Stream := Stdout | Stderr | Handle (path : string).

(** A computation ends with a value or leaves through [os.Exit]. *)
Inductive Outcome (A : Type) :=
| Return (a : A)
| Exit (code : Z).
Arguments Return {A} a.
Arguments Exit {A} code.

Definition M (A : Type) : Type := World -> Outcome A * World.

Definition ret {A} (a : A) : M A := fun w => (Return a, w).

Definition bind {A B} (m : M A) (k : A -> M B) : M B :=
  fun w =>
    match m w with
    | (Return a, w') => k a w'
    | (Exit c, w') => (Exit c, w')
    end.

Definition exit {A} (code : Z) : M A := fun w => (Exit code, w).

#[global] Instance M_ret : MRet M := @ret.
#[global] Instance M_bind : MBind M := fun A B k m => bind m k.

(** [if cond { body }] where [body] may leave the program. *)
Definition when (cond : bool) (body : M unit) : M unit :=
  if cond then body else ret tt.

Definition write (f : Stream) (s : string) : M unit :=
  fun w =>
    (Return tt,
     match f with
     | Stdout => {| stdout := stdout w +:+ s; stderr := stderr w; disk := disk w |}
     | Stderr => {| stdout := stdout w; stderr := stderr w +:+ s; disk := disk w |}
     | Handle p =>
         {| stdout := stdout w; stderr := stderr w;
            disk := alter (fun old => old +:+ s) p (disk w) |}
     end).

(** The file made, or emptied, by a successful [os.Create]. *)
Definition truncate (p : string) : M unit :=
  fun w =>
    (Return tt,
     {| stdout := stdout w; stderr := stderr w;
        disk := <[p := EmptyString]> (disk w) |}).

(** ** [strings] *)

Module strings.

(** [strings.HasSuffix] *)
Definition HasSuffix (s suffix : string) : bool :=
  let n := String.length s in
  let k := String.length suffix in
  (k <=? n)%nat && String.eqb (String.substring (n - k) k s) suffix.

End strings.

(** ** [path/filepath]: [Walk] *)

Module filepath.

Section walk.

(** [filepath.Join] *)
Variable Join : string -> string -> string.

Context {S : Type}.

(** The callback: the path, the file information (nil when [lstat]
    failed), the error met at that path, and the state the closure
    carries; it returns the new state and its own error. *)
Definition WalkFunc : Type :=
  string -> option FileInfo -> option error -> S -> S * option error.

Variable fn : WalkFunc.

(** The loop of [walk] over the entries of a directory: each entry is
    walked under the joined path, and the first error ends the loop. *)
Definition eachEntry (walkNode : string -> Node -> S -> S * option error)
    (path : string) : list Node -> S -> S * option error :=
  fix each (l : list Node) (s : S) : S * option error :=
    match l with
    | [] => (s, None)
    | e :: l' =>
        match walkNode (Join path (nodeName e)) e s with
        | (s', Some err) => (s', Some err)
        | (s', None) => each l' s'
        end
    end.

(** [walk]: the callback is called on the node, then on its entries in
    order; the first error the callback returns ends the walk.  The
    callback of this program returns only errors it was handed, which are
    never [SkipDir], so the branches for [SkipDir] are not reproduced. *)
Fixpoint walk (path : string) (n : Node) (s : S) : S * option error :=
  match n with
  | File name => fn path (Some {| Name := name; IsDir := false |}) None s
  | Broken name err => fn path None (Some err) s
  | Unreadable name err =>
      fn path (Some {| Name := name; IsDir := true |}) (Some err) s
  | Dir name entries =>
      match fn path (Some {| Name := name; IsDir := true |}) None s with
      | (s1, Some err1) => (s1, Some err1)
      | (s1, None) => eachEntry walk path entries s1
      end
  end.

(** [filepath.Walk] on the tree found at [root]. *)
Definition Walk (root : string) (tree : Node) (s : S) : S * option error :=
  walk root tree s.

End walk.

End filepath.

(** ** Reading what a run wrote *)

Definition emptyWorld : World :=
  {| stdout := EmptyString; stderr := EmptyString; disk := ∅ |}.

(** The text a computation writes to a file that starts empty. *)
Definition written {A} (m : Stream -> M A) : string :=
  let w := {| stdout := EmptyString; stderr := EmptyString;
              disk := {[ "out" := EmptyString ]} |} in
  default EmptyString (disk (m (Handle "out") w).2 !! "out").

(** The content of a file after a run. *)
Definition fileText (path : string) {A} (r : Outcome A * World) : option string :=
  disk r.2 !! path.

(** The key a JSON reader finds at the head of the text of a member: white
    space, then a string literal. *)
Definition keyOf (text : string) : option string :=
  match json.skipWs (bytes_of_string text) with
  | 34 :: t =>
      '(v, _) ← json.stringBody (length t) t; Some (string_of_bytes v)
  | _ => None
  end.

(** The lines of a text, without their newline characters. *)
Fixpoint lines (s : string) : list string :=
  match s with
  | EmptyString => [EmptyString]
  | String c rest =>
      if Ascii.eqb c "010" then EmptyString :: lines rest
      else
        match lines rest with
        | l :: ls => String c l :: ls
        | [] => [String c EmptyString]
        end
  end.

Fixpoint stripPrefix (p s : string) : option string :=
  match p, s with
  | EmptyString, _ => Some s
  | String a p', String b s' => if Ascii.eqb a b then stripPrefix p' s' else None
  | String _ _, EmptyString => None
  end.

Definition dropLastComma (s : string) : string :=
  if strings.HasSuffix s "," then String.substring 0 (String.length s - 1) s
  else s.

(** The text that follows [<tab><tab>"name": ] on the first line of a
    member's text that starts so, without the comma that ends the line. *)
Definition memberValue (name : string) (text : string) : option string :=
  dropLastComma <$>
    head (omap (stripPrefix (tab +:+ tab +:+ dq +:+ name +:+ dq +:+ ": "))
               (lines text)).

(** ** The documents below a root, as the specification describes them *)

(** The fixed ignore-list. *)
Definition ignoreList : list string :=
  [ "0023-documentation-for-images.md";
    "0004-cloud-provider-template.md";
    "0001a-meta-kep-implementation.md";
    "0001-kubernetes-enhancement-proposal-process.md";
    "YYYYMMDD-kep-template.md";
    "README.md";
    "kep-faq.md" ].

(** A base name that is not in the ignore-list and ends in [md]. *)
Definition eligible (name : string) : bool :=
  negb (bool_decide (name ∈ ignoreList)) && strings.HasSuffix name "md".

(** No [lstat] and no directory listing fails below the node. *)
Fixpoint treeOk (n : Node) : bool :=
  match n with
  | File _ => true
  | Dir _ entries => forallb treeOk entries
  | Unreadable _ _ | Broken _ _ => false
  end.

(** The non-directory paths below a node, each with its base name, in the
    order of the walk. *)
Fixpoint treePaths (Join : string -> string -> string) (path : string)
    (n : Node) : list (string * string) :=
  match n with
  | File name => [(path, name)]
  | Dir _ entries =>
      flat_map (fun e => treePaths Join (Join path (nodeName e)) e) entries
  | Unreadable _ _ | Broken _ _ => []
  end.

(** ** The emitted object, as the specification lays it out *)

(** [identifier(record) = hexEncode(checksum(OwningSIG + ":" + Title))] *)
Definition identifier (kep : Proposal) : string :=
  hexEncode (md5.Sum (bytes_of_string (OwningSIG kep +:+ ":" +:+ Title kep))).

(** A line of a member: a name and text between quotes, or a name and a
    JSON value; the last line of a member has no comma. *)
Definition quotedLine (name v : string) : string :=
  tab +:+ tab +:+ dq +:+ name +:+ dq +:+ ": " +:+ dq +:+ v +:+ dq +:+ ","
    +:+ nl.
Definition jsonLine (name v : string) : string :=
  tab +:+ tab +:+ dq +:+ name +:+ dq +:+ ": " +:+ v +:+ "," +:+ nl.
Definition lastLine (name v : string) : string :=
  tab +:+ tab +:+ dq +:+ name +:+ dq +:+ ": " +:+ v +:+ nl.

(** The thirteen fields of a member, in their fixed order. *)
Definition memberFields (kep : Proposal) : string :=
  quotedLine "title" (Title kep)
  +:+ quotedLine "owning-sig" (OwningSIG kep)
  +:+ jsonLine "participating-sigs" (json.MarshalStrings (ParticipatingSIGs kep))
  +:+ jsonLine "reviewers" (json.MarshalStrings (Reviewers kep))
  +:+ jsonLine "authors" (json.MarshalStrings (Authors kep))
  +:+ quotedLine "editor" (Editor kep)
  +:+ quotedLine "creation-date" (CreationDate kep)
  +:+ quotedLine "last-updated" (LastUpdated kep)
  +:+ quotedLine "status" (Status kep)
  +:+ jsonLine "see-also" (json.MarshalStrings (SeeAlso kep))
  +:+ jsonLine "replaces" (json.MarshalStrings (Replaces kep))
  +:+ jsonLine "superseded-by" (json.MarshalStrings (SupersededBy kep))
  +:+ lastLine "markdown" (json.MarshalString (Contents kep)).

(** The member at position [n] of [total]: its key, its fields, and a
    closing brace followed by a comma unless the member is the last. *)
Definition memberText (total n : nat) (kep : Proposal) : string :=
  tab +:+ dq +:+ identifier kep +:+ dq +:+ ": {" +:+ nl
  +:+ memberFields kep
  +:+ tab +:+ (if (Datatypes.S n <? total)%nat then "}," else "}") +:+ nl.

Definition concatAll (l : list string) : string :=
  foldr String.append EmptyString l.

Definition members (proposals : Proposals) : list string :=
  imap (memberText (length proposals)) proposals.

Definition objectText (proposals : Proposals) : string :=
  "{" +:+ nl +:+ concatAll (members proposals) +:+ "}" +:+ nl.

(** The value of the member of a record: the object of its thirteen
    fields. *)
Definition memberObject (kep : Proposal) : string :=
  "{" +:+ nl +:+ memberFields kep +:+ tab +:+ "}".

(** A text that can stand between quotes as it is: no control character,
    no double quote and no backslash. *)
Definition plainText (s : string) : Prop :=
  Forall (λ b, json.plain b = true) (bytes_of_string s).

(** The six fields that are written between quotes are plain. *)
Definition scalarsPlain (kep : Proposal) : Prop :=
  plainText (Title kep) ∧ plainText (OwningSIG kep) ∧ plainText (Editor kep)
  ∧ plainText (CreationDate kep) ∧ plainText (LastUpdated kep)
  ∧ plainText (Status kep).

(** The number of elements in the six sequence fields. *)
Definition seqTotal (kep : Proposal) : nat :=
  (len (ParticipatingSIGs kep) + len (Reviewers kep) + len (Authors kep)
   + len (SeeAlso kep) + len (Replaces kep) + len (SupersededBy kep))%nat.

(** ** The walk when something fails *)

(** The non-directory paths the walk reaches below a node, each with its
    base name, and the error that ended the walk, if any: the walk goes no
    further than the first name on which [lstat] fails or the first
    directory whose listing fails. *)
Fixpoint visited (Join : string -> string -> string) (path : string)
    (n : Node) : list (string * string) * option error :=
  match n with
  | File name => ([(path, name)], None)
  | Dir _ entries =>
      (fix each (l : list Node) : list (string * string) * option error :=
         match l with
         | [] => ([], None)
         | e :: l' =>
             match visited Join (Join path (nodeName e)) e with
             | (found, Some err) => (found, Some err)
             | (found, None) =>
                 let '(found', err) := each l' in (found ++ found', err)
             end
         end) entries
  | Unreadable _ err | Broken _ err => ([], Some err)
  end.

(** ** Reading the values of the object back *)

Module readback.

(** [utf8.ValidString]: the text consists of valid UTF-8 sequences only.
    [fuel] bounds the number of runes, and the length of the text is
    enough. *)
Fixpoint validLoop (fuel : nat) (s : list Z) : bool :=
  match fuel, s with
  | O, _ | _, [] => true
  | S fuel', b :: t =>
      if b <? 0x80 then validLoop fuel' t
      else
        let '(c, size) := utf8.DecodeRune s in
        if (c =? utf8.RuneError) && (size =? 1)%nat then false
        else validLoop fuel' (drop size s)
  end.

Definition ValidString (s : string) : bool :=
  let b := bytes_of_string s in validLoop (length b) b.

(** [strings.ToValidUTF8] with U+FFFD as the replacement, rune by rune:
    every byte that does not belong to a valid sequence is replaced by the
    three bytes of U+FFFD; everything else is kept. *)
Fixpoint sanitizeLoop (fuel : nat) (s : list Z) : list Z :=
  match fuel, s with
  | O, _ | _, [] => []
  | S fuel', b :: t =>
      if b <? 0x80 then b :: sanitizeLoop fuel' t
      else
        let '(c, size) := utf8.DecodeRune s in
        if (c =? utf8.RuneError) && (size =? 1)%nat then
          [0xEF; 0xBF; 0xBD] ++ sanitizeLoop fuel' (drop size s)
        else take size s ++ sanitizeLoop fuel' (drop size s)
  end.

Definition sanitize (s : string) : string :=
  let b := bytes_of_string s in string_of_bytes (sanitizeLoop (length b) b).

(** The string literals of an array, after its opening bracket, when there
    is at least one: the bytes each stands for, and the input left after
    the closing bracket. *)
Fixpoint readStrings (fuel : nat) (s : list Z)
  : option (list (list Z) * list Z) :=
  match fuel with
  | O => None
  | S fuel' =>
      match json.skipWs s with
      | 34 :: t =>
          '(v, r) ← json.stringBody (length t) t;
          match json.skipWs r with
          | 44 :: r' => '(vs, r'') ← readStrings fuel' r'; Some (v :: vs, r'')
          | 93 :: r' => Some ([v], r')
          | _ => None
          end
      | _ => None
      end
  end.

(** [json.Unmarshal] into a nil [[]string]: [null] leaves the slice nil, an
    array of string literals gives the slice of what they stand for, and
    any other text is an error ([None]). *)
Definition UnmarshalStrings (text : string) : option (option (list string)) :=
  let b := bytes_of_string text in
  match json.skipWs b with
  | 110 :: t =>
      match json.skipWs <$> json.stripPrefix [117; 108; 108] t with
      | Some [] => Some None
      | _ => None
      end
  | 91 :: t =>
      match json.skipWs t with
      | 93 :: r =>
          match json.skipWs r with
          | [] => Some (Some [])
          | _ => None
          end
      | _ =>
          match readStrings (length t) t with
          | Some (vs, r) =>
              match json.skipWs r with
              | [] => Some (Some (string_of_bytes <$> vs))
              | _ => None
              end
          | None => None
          end
      end
  | _ => None
  end.

(** The bytes of [s] that stand before its suffix [rest]. *)
Definition span (s rest : list Z) : list Z :=
  take (length s - length rest) s.

(** A text without the white space at its two ends. *)
Definition trim (s : list Z) : list Z :=
  reverse (json.skipWs (reverse (json.skipWs s))).

(** The members of an object after its opening brace, as a reader takes
    them one after the other: the bytes each key stands for with the text
    of its value, and the input left after the closing brace.  The reader
    accepts what [json.members] accepts. *)
Fixpoint readMembers (fuel : nat) (s : list Z)
  : option (list (list Z * list Z) * list Z) :=
  match fuel with
  | O => None
  | S fuel' =>
      match json.skipWs s with
      | 34 :: t =>
          '(k, r) ← json.stringBody (length t) t;
          match json.skipWs r with
          | 58 :: r' =>
              match json.value fuel' r' with
              | Some (44 :: r'') =>
                  '(ms, rest) ← readMembers fuel' r'';
                  Some ((k, trim (span r' (44 :: r''))) :: ms, rest)
              | Some (125 :: r'') =>
                  Some ([(k, trim (span r' (125 :: r'')))], json.skipWs r'')
              | _ => None
              end
          | _ => None
          end
      | _ => None
      end
  end.

(** What a JSON reader finds in a text that is one object: the key and the
    text of the value of each top-level member, in the order of the text;
    [None] when the text is not one JSON object. *)
Definition ObjectMembers (text : string) : option (list (string * string)) :=
  let b := bytes_of_string text in
  match json.skipWs b with
  | 123 :: t =>
      match json.skipWs t with
      | 125 :: r =>
          match json.skipWs r with
          | [] => Some []
          | _ => None
          end
      | _ =>
          match readMembers (length b) t with
          | Some (ms, []) =>
              Some ((λ kv, (string_of_bytes kv.1, string_of_bytes kv.2))
                      <$> ms)
          | _ => None
          end
      end
  | _ => None
  end.

End readback.

(** A lowercase hexadecimal digit. *)
Definition lowerHex (b : Z) : Prop := 48 <= b <= 57 \/ 97 <= b <= 102.

(** ** Sample inputs *)

Module sample.

(** Quoting of printable ASCII text without quotes or backslashes, and
    joining of clean paths. *)
Definition Quote (s : string) : string := dq +:+ s +:+ dq.
Definition Join (dir name : string) : string := dir +:+ "/" +:+ name.

Definition proposal (title sig body : string) : Proposal :=
  {| Title := title; OwningSIG := sig;
     ParticipatingSIGs := None; Reviewers := Some ["alice"; "bob"];
     Authors := Some [];
     Editor := EmptyString; CreationDate := "2020-01-01";
     LastUpdated := "2020-02-02"; Status := "draft";
     SeeAlso := None; Replaces := None; SupersededBy := None;
     Contents := body; Error := None |}.

Definition failed (cause : string) : Proposal :=
  {| Title := EmptyString; OwningSIG := EmptyString;
     ParticipatingSIGs := None; Reviewers := None; Authors := None;
     Editor := EmptyString; CreationDate := EmptyString;
     LastUpdated := EmptyString; Status := EmptyString;
     SeeAlso := None; Replaces := None; SupersededBy := None;
     Contents := EmptyString; Error := Some (errors.New cause) |}.

(** A stand-in parser: the first line is the title, the second the owning
    SIG, and the rest the body. *)
Definition Parse (file : string) : Proposal :=
  match lines file with
  | title :: sig :: body =>
      if String.eqb title EmptyString then failed "title is required"
      else proposal title sig (String.concat nl body)
  | _ => failed "no metadata block"
  end.

Definition doc (title sig body : string) : string :=
  title +:+ nl +:+ sig +:+ nl +:+ body.

(** A tree with ignored names, a subdirectory and three documents. *)
Definition tree : Node :=
  Dir "keps"
    [ File "README.md";
      Dir "sig-b" [ File "beta.md"; File "notes.txt"; File "roadmd" ];
      File "alpha.md";
      File "kep-faq.md" ].

Definition files (path : string) : error + string :=
  if String.eqb path "keps/sig-b/beta.md" then inr (doc "Beta" "sig-b" "two")
  else if String.eqb path "keps/sig-b/roadmd" then inr (doc "Beta" "sig-b" "again")
  else if String.eqb path "keps/alpha.md" then inr (doc "Alpha" "sig-a" "one")
  else if String.eqb path "keps/broken.md" then inr "no title here"
  else inl (errors.New ("open " +:+ path +:+ ": no such file or directory")).

Definition sys : OS :=
  {| StatNotExist := fun _ => false;
     Tree := fun _ => tree;
     Open := files;
     Create := fun _ => None |}.

(** The same system with a document that does not parse between two that
    do. *)
Definition sysBroken : OS :=
  {| StatNotExist := fun _ => false;
     Tree := fun _ =>
       Dir "keps" [ File "alpha.md"; File "broken.md"; Dir "sig-b" [ File "beta.md" ] ];
     Open := files;
     Create := fun _ => None |}.

(** A tree in which nothing is a document. *)
Definition sysEmpty : OS :=
  {| StatNotExist := fun _ => false;
     Tree := fun _ =>
       Dir "keps" [ File "README.md"; Dir "sig-b" [ File "notes.txt" ];
                    File "kep-faq.md"; File "OWNERS" ];
     Open := files;
     Create := fun _ => None |}.

(** A record whose title and body hold double quotes. *)
Definition quoted : Proposal :=
  proposal ("say " +:+ dq +:+ "hi" +:+ dq) "sig-x"
           ("She said " +:+ dq +:+ "hi" +:+ dq +:+ nl +:+ "and left.").

(** A record whose title holds a backslash followed by the letter n. *)
Definition backslashed : Proposal :=
  proposal ("a" +:+ bsl +:+ "nb") "sig-x" "body".

(** A record whose strings need no escaping. *)
Definition simple : Proposal := proposal "Foo" "sig-x" "Hello".

(** Two records with the same owning SIG and title that differ in every
    other field. *)
Definition beta : Proposal := proposal "Beta" "sig-b" "two".
Definition betaRevised : Proposal :=
  {| Title := "Beta"; OwningSIG := "sig-b";
     ParticipatingSIGs := Some ["sig-a"]; Reviewers := None;
     Authors := Some ["carol"];
     Editor := "dave"; CreationDate := "2021-03-03";
     LastUpdated := "2021-04-04"; Status := "implemented";
     SeeAlso := Some []; Replaces := None; SupersededBy := None;
     Contents := "again"; Error := None |}.

(** The files found in [tree] and the proposals parsed from them. *)
Definition found : list string :=
  [ "keps/sig-b/beta.md"; "keps/sig-b/roadmd"; "keps/alpha.md" ].
Definition parsed : list Proposal :=
  [ proposal "Beta" "sig-b" "two"; proposal "Beta" "sig-b" "again";
    proposal "Alpha" "sig-a" "one" ].

End sample.

(** Systems on which a run fails at one of its steps. *)
Module failing.

(** The root directory does not exist. *)
Definition sysMissing : OS :=
  {| StatNotExist := fun _ => true;
     Tree := fun _ => Broken "keps" (errors.New "lstat keps: no such file");
     Open := fun _ => inl (errors.New "no such file");
     Create := fun _ => None |}.

(** A directory that cannot be listed stands between two documents. *)
Definition sysUnreadable : OS :=
  {| StatNotExist := fun _ => false;
     Tree := fun _ =>
       Dir "keps"
         [ File "alpha.md";
           Dir "sig-b" [ File "beta.md";
                         Unreadable "private"
                           (errors.New "open keps/sig-b/private: permission denied");
                         File "gamma.md" ];
           File "omega.md" ];
     Open := fun _ => inl (errors.New "no such file");
     Create := fun _ => None |}.

(** The second document found cannot be opened. *)
Definition sysLocked : OS :=
  {| StatNotExist := fun _ => false;
     Tree := fun _ =>
       Dir "keps" [ File "alpha.md"; File "locked.md"; File "zeta.md" ];
     Open := fun path =>
       if String.eqb path "keps/alpha.md" then inr (sample.doc "Alpha" "sig-a" "one")
       else inl (errors.New ("open " +:+ path +:+ ": permission denied"));
     Create := fun _ => None |}.

(** The output file cannot be created. *)
Definition sysReadOnly : OS :=
  {| StatNotExist := fun _ => false;
     Tree := fun _ => Dir "keps" [ File "alpha.md" ];
     Open := fun path =>
       if String.eqb path "keps/alpha.md" then inr (sample.doc "Alpha" "sig-a" "one")
       else inl (errors.New "no such file");
     Create := fun path =>
       Some (errors.New ("open " +:+ path +:+ ": read-only file system")) |}.

End failing.

(** Two documents, the first with a title that closes its own quotes and
    braces and opens a member of its own. *)
Module injection.

Definition title : string :=
  "a" +:+ dq +:+ "}, " +:+ dq +:+ "k2" +:+ dq +:+ ": {" +:+ dq +:+ "title"
    +:+ dq +:+ ": " +:+ dq +:+ "b".

Definition sys : OS :=
  {| StatNotExist := fun _ => false;
     Tree := fun _ => Dir "keps" [ File "first.md"; File "second.md" ];
     Open := fun path =>
       if String.eqb path "keps/first.md" then
         inr (sample.doc title "sig-x" "one")
       else if String.eqb path "keps/second.md" then
         inr (sample.doc "Second" "sig-y" "two")
       else inl (errors.New "no such file");
     Create := fun _ => None |}.

Definition found : list string := [ "keps/first.md"; "keps/second.md" ].

Definition first : Proposal := sample.proposal title "sig-x" "one".
Definition second : Proposal := sample.proposal "Second" "sig-y" "two".

End injection.

(** ** [cmd/kepify/main.go] *)

Section kepify.

(** [strconv.Quote] and [filepath.Join], from Go's library. *)
Variable Quote : string -> string.
Variable Join : string -> string -> string.

(** [keps.Parser.Parse] applied to the bytes of a file. *)
Variable Parse : string -> Proposal.

Variable sys : OS.

Definition Sprintf := fmt.Sprintf Quote.
Definition Errorf := fmt.Errorf Quote.

Definition Fprintf (f : Stream) (format : string) (args : list arg) : M unit :=
  write f (Sprintf format args).

Definition Printf := Fprintf Stdout.

(** [fmt.Fprintln] with one string operand. *)
Definition Fprintln (f : Stream) (s : string) : M unit :=
  write f (s +:+ nl).

(** ignore certain files in the keps/ subdirectory *)
Definition ignore (name : string) : bool :=
  if negb (strings.HasSuffix name "md") then true
  else if String.eqb name "0023-documentation-for-images.md"
       || String.eqb name "0004-cloud-provider-template.md"
       || String.eqb name "0001a-meta-kep-implementation.md"
       || String.eqb name "0001-kubernetes-enhancement-proposal-process.md"
       || String.eqb name "YYYYMMDD-kep-template.md"
       || String.eqb name "README.md"
       || String.eqb name "kep-faq.md"
  then true
  else false.

Definition hash (s : string) : string :=
  Sprintf "%x" [Bytes (md5.Sum (bytes_of_string s))].

Definition marshal (array : option (list string)) : string :=
  json.MarshalStrings array.

(** The closure handed to [filepath.Walk]; its state is the slice
    [files]. *)
Definition visit : filepath.WalkFunc (S := list string) :=
  fun path info err files =>
    match err with
    | Some e => (files, Some e)
    | None =>
        match info with
        | Some info =>
            if IsDir info then (files, None)
            else if ignore (Name info) then (files, None)
            else (files ++ [path], None)
        | None => (files, None)
        end
    end.

Definition findMarkdownFiles (dirPath : string) : list string * option error :=
  filepath.Walk Join visit dirPath (Tree sys dirPath) [].

(** The loop of [parseFiles], from the proposals collected so far.  The
    result is the error the function returns, or the proposals. *)
Fixpoint parseLoop (files : list string) (proposals : Proposals)
  : M (error + Proposals) :=
  match files with
  | [] => mret (inr proposals)
  | filename :: rest =>
      match Open sys filename with
      | inl err =>
          mret (inl (Errorf ("could not open file: %v" +:+ nl) [Err err]))
      | inr file =>
          let kep := Parse file in
          match Error kep with
          | Some e =>
              mret (inl (Errorf ("%v has an error: %q" +:+ nl)
                           [Str filename; Str (errors.Error e)]))
          | None =>
              Printf (">>>> parsed file successfully: %s" +:+ nl)
                     [Str filename];;
              parseLoop rest (AddProposal proposals kep)
          end
      end
  end.

Definition parseFiles (files : list string) : M (error + Proposals) :=
  parseLoop files [].

(** The two formats of a member line: a string value between quotes, and a
    value that is already JSON. *)
Definition fmtQuoted : string :=
  tab +:+ tab +:+ dq +:+ "%s" +:+ dq +:+ ": " +:+ dq +:+ "%s" +:+ dq +:+ ","
    +:+ nl.
Definition fmtJSON : string :=
  tab +:+ tab +:+ dq +:+ "%s" +:+ dq +:+ ": %s," +:+ nl.
Definition fmtLast : string :=
  tab +:+ tab +:+ dq +:+ "%s" +:+ dq +:+ ": %s" +:+ nl.

(** The body of the loop of [printJSONOutput] for the proposal at index
    [i]. *)
Definition printProposal (file : Stream) (total i : Z) (kep : Proposal)
  : M unit :=
  Fprintf file (tab +:+ dq +:+ "%s" +:+ dq +:+ ": {" +:+ nl)
    [Str (hash (OwningSIG kep +:+ ":" +:+ Title kep))];;
  Fprintf file fmtQuoted [Str "title"; Str (Title kep)];;
  Fprintf file fmtQuoted [Str "owning-sig"; Str (OwningSIG kep)];;
  Fprintf file fmtJSON
    [Str "participating-sigs"; Str (marshal (ParticipatingSIGs kep))];;
  Fprintf file fmtJSON [Str "reviewers"; Str (marshal (Reviewers kep))];;
  Fprintf file fmtJSON [Str "authors"; Str (marshal (Authors kep))];;
  Fprintf file fmtQuoted [Str "editor"; Str (Editor kep)];;
  Fprintf file fmtQuoted [Str "creation-date"; Str (CreationDate kep)];;
  Fprintf file fmtQuoted [Str "last-updated"; Str (LastUpdated kep)];;
  Fprintf file fmtQuoted [Str "status"; Str (Status kep)];;
  Fprintf file fmtJSON [Str "see-also"; Str (marshal (SeeAlso kep))];;
  Fprintf file fmtJSON [Str "replaces"; Str (marshal (Replaces kep))];;
  Fprintf file fmtJSON [Str "superseded-by"; Str (marshal (SupersededBy kep))];;
  let contents := bytes_of_string (json.MarshalString (Contents kep)) in
  Fprintf file fmtLast [Str "markdown"; Bytes contents];;
  if i <? total - 1 then Fprintln file (tab +:+ "},")
  else Fprintln file (tab +:+ "}").

Fixpoint printLoop (file : Stream) (total i : Z) (proposals : Proposals)
  : M unit :=
  match proposals with
  | [] => mret tt
  | kep :: rest =>
      printProposal file total i kep;;
      printLoop file total (i + 1) rest
  end.

Definition printJSONOutput (filePath : string) (proposals : Proposals)
  : M (option error) :=
  Printf ("Output file: %s" +:+ nl) [Str filePath];;
  match Create sys filePath with
  | Some err => mret (Some err)
  | None =>
      truncate filePath;;
      let file := Handle filePath in
      let total := Z.of_nat (length proposals) in
      Printf ("Total KEPs: %d" +:+ nl) [Int total];;
      Fprintln file "{";;
      printLoop file total 0 proposals;;
      Fprintln file "}";;
      mret None
  end.

(** [main], after [flag.Parse] has set [dirPath] and [filePath]. *)
Definition main (dirPath filePath : string) : M unit :=
  when (String.length dirPath =? 0)%nat
    (Fprintf Stderr
       ("please specify the root directory for KEPs using '--dir'" +:+ nl) [];;
     exit 1);;
  when (StatNotExist sys dirPath)
    (Printf "directory does not exist : %s" [Str dirPath];;
     exit 1);;
  when (String.length filePath =? 0)%nat
    (Fprintf Stderr
       ("please specify the file path for the output json using '--output'"
          +:+ nl) [];;
     exit 1);;
  let '(files, err) := findMarkdownFiles dirPath in
  match err with
  | Some err =>
      Fprintf Stderr ("unable to find markdown files: %v" +:+ nl) [Err err];;
      exit 1
  | None => mret tt
  end;;
  when (length files =? 0)%nat
    (Fprintf Stderr ("did not find any KEPs" +:+ nl) [];;
     exit 1);;
  r ← parseFiles files;
  match r with
  | inl err =>
      Fprintf Stderr ("error parsing files: %q" +:+ nl) [Err err];;
      exit 1
  | inr proposals =>
      err ← printJSONOutput filePath proposals;
      match err with
      | Some err =>
          Fprintf Stderr ("could not open file: %v" +:+ nl) [Err err];;
          exit 1
      | None => mret tt
      end
  end.

(** The exit status of the process. *)
Definition status {A} (r : Outcome A * World) : Z :=
  match r.1 with
  | Return _ => 0
  | Exit c => c
  end.


(** ** Describing a run *)

(** The proposal a file yields when it opens and parses without error. *)
Definition document (filename : string) : option Proposal :=
  match Open sys filename with
  | inr file =>
      match Error (Parse file) with
      | None => Some (Parse file)
      | Some _ => None
      end
  | inl _ => None
  end.

(** The progress line printed for a parsed file. *)
Definition successLine (filename : string) : string :=
  ">>>> parsed file successfully: " +:+ filename +:+ nl.

(** The world after [s] is printed on the standard output, and after [s]
    is printed on the standard error. *)
Definition say (s : string) (w : World) : World :=
  {| stdout := stdout w +:+ s; stderr := stderr w; disk := disk w |}.
Definition complain (s : string) (w : World) : World :=
  {| stdout := stdout w; stderr := stderr w +:+ s; disk := disk w |}.

(** The flags pass the checks at the head of [main]. *)
Definition flagsOk (dirPath filePath : string) : Prop :=
  String.length dirPath ≠ 0%nat
  ∧ StatNotExist sys dirPath = false
  ∧ String.length filePath ≠ 0%nat.

(** * Properties *)

(** ** Text *)

Lemma append_cons (x : ascii) (a b : string) :
  String x a +:+ b = String x (a +:+ b).
Proof. reflexivity. Qed.

Lemma append_assoc (a b c : string) : (a +:+ b) +:+ c = a +:+ (b +:+ c).
Proof.
  induction a as [|x a IH]; [reflexivity|].
  rewrite !append_cons. by rewrite IH.
Qed.

Lemma append_nil_r (a : string) : a +:+ EmptyString = a.
Proof.
  induction a as [|x a IH]; [reflexivity|].
  rewrite append_cons. by rewrite IH.
Qed.

Lemma bytes_of_string_app (a b : string) :
  bytes_of_string (a +:+ b) = bytes_of_string a ++ bytes_of_string b.
Proof.
  unfold bytes_of_string.
  induction a as [|x a IH]; [reflexivity|].
  rewrite append_cons. simpl. by rewrite IH.
Qed.

Lemma length_append (a b : string) :
  String.length (a +:+ b) = (String.length a + String.length b)%nat.
Proof.
  induction a as [|x a IH]; [reflexivity|].
  rewrite append_cons. simpl. by rewrite IH.
Qed.

Lemma substring_all (s : string) : String.substring 0 (String.length s) s = s.
Proof. induction s as [|x s IH]; [reflexivity | simpl; by rewrite IH]. Qed.

Lemma substring_append_r (p s : string) :
  String.substring (String.length p) (String.length s) (p +:+ s) = s.
Proof.
  induction p as [|x p IH]; [apply substring_all|].
  rewrite append_cons. simpl. apply IH.
Qed.

Lemma substring_split (s : string) :
  ∀ m, (m ≤ String.length s)%nat →
    s = String.substring 0 m s
          +:+ String.substring m (String.length s - m) s.
Proof.
  induction s as [|x s IH]; intros [|m] Hm; simpl in *; try lia.
  - reflexivity.
  - by rewrite substring_all.
  - rewrite append_cons. f_equal. apply IH. lia.
Qed.

(** [strings.HasSuffix] holds exactly of the strings that end with the
    suffix. *)
Lemma HasSuffix_spec (s suffix : string) :
  strings.HasSuffix s suffix = true ↔ ∃ p, s = p +:+ suffix.
Proof.
  unfold strings.HasSuffix. rewrite andb_true_iff, Nat.leb_le, String.eqb_eq.
  split.
  - intros [Hle Hsub].
    exists (String.substring 0 (String.length s - String.length suffix) s).
    pose proof (substring_split s (String.length s - String.length suffix))
      as Hsplit.
    replace (String.length s - (String.length s - String.length suffix))%nat
      with (String.length suffix) in Hsplit by lia.
    rewrite Hsub in Hsplit. apply Hsplit. lia.
  - intros [p ->]. rewrite length_append. split; [lia|].
    replace (String.length p + String.length suffix - String.length suffix)%nat
      with (String.length p) by lia.
    apply substring_append_r.
Qed.

(** ** Runs of the printing functions *)

Lemma write_then (f : Stream) (a text : string) (m : M unit) (w : World) :
  (∀ w', m w' = write f text w') →
  (write f a;; m) w = write f (a +:+ text) w.
Proof.
  intros Hm. unfold mbind, M_bind, bind. simpl. rewrite Hm.
  unfold write. destruct f; simpl; rewrite ?append_assoc; try reflexivity.
  do 2 f_equal. rewrite alter_alter_eq. apply alter_ext.
  intros x _. simpl. apply append_assoc.
Qed.

Lemma hash_identifier (kep : Proposal) :
  hash (OwningSIG kep +:+ ":" +:+ Title kep) = identifier kep.
Proof. unfold hash, identifier. simpl. apply append_nil_r. Qed.

Lemma write_if (f : Stream) (c : bool) (a b : string) (w : World) :
  (if c then write f a else write f b) w = write f (if c then a else b) w.
Proof. by destruct c. Qed.

Lemma Sprintf_quoted (name v : string) :
  Sprintf fmtQuoted [Str name; Str v] = quotedLine name v.
Proof. reflexivity. Qed.

Lemma Sprintf_json (name v : string) :
  Sprintf fmtJSON [Str name; Str v] = jsonLine name v.
Proof. reflexivity. Qed.

Lemma string_of_bytes_of_string (s : string) :
  string_of_bytes (bytes_of_string s) = s.
Proof.
  unfold string_of_bytes, bytes_of_string.
  rewrite map_map, (map_ext _ id), map_id.
  - apply string_of_list_ascii_of_string.
  - intros c. unfold ascii_of_byte, byte_of_ascii.
    by rewrite N2Z.id, ascii_N_embedding.
Qed.

Lemma Sprintf_last (name v : string) :
  Sprintf fmtLast [Str name; Bytes (bytes_of_string v)] = lastLine name v.
Proof.
  transitivity
    (tab +:+ tab +:+ dq +:+ name +:+ dq +:+ ": "
       +:+ string_of_bytes (bytes_of_string v) +:+ nl);
    [reflexivity|].
  by rewrite string_of_bytes_of_string.
Qed.

Lemma last_index (total n : nat) :
  (Z.of_nat n <? Z.of_nat total - 1) = (S n <? total)%nat.
Proof.
  destruct (Z.ltb_spec (Z.of_nat n) (Z.of_nat total - 1)),
    (Nat.ltb_spec (S n) total); (reflexivity || lia).
Qed.

Lemma printProposal_run (f : Stream) (total n : nat) (kep : Proposal)
    (w : World) :
  printProposal f (Z.of_nat total) (Z.of_nat n) kep w
  = write f (memberText total n kep) w.
Proof.
  unfold printProposal, Fprintf, Fprintln, marshal.
  rewrite hash_identifier, !Sprintf_quoted, !Sprintf_json, Sprintf_last,
    last_index.
  etransitivity.
  { repeat (apply write_then; intros). apply write_if. }
  f_equal. unfold memberText, memberFields.
  change (Sprintf _ [Str (identifier kep)])
    with (tab +:+ dq +:+ identifier kep +:+ dq +:+ ": {" +:+ nl).
  rewrite !append_assoc.
  destruct (S n <? total)%nat; reflexivity.
Qed.

Lemma write_nil (f : Stream) (w : World) :
  write f EmptyString w = (Return tt, w).
Proof.
  unfold write. destruct w as [o e d], f; simpl; rewrite ?append_nil_r;
    try reflexivity.
  do 2 f_equal. apply alter_id. intros x _. apply append_nil_r.
Qed.

Lemma printLoop_run (f : Stream) (total : nat) (proposals : Proposals) :
  ∀ (n : nat) (w : World),
    printLoop f (Z.of_nat total) (Z.of_nat n) proposals w
    = write f (concatAll (imap (λ k, memberText total (n + k)) proposals)) w.
Proof.
  induction proposals as [|kep rest IH]; intros n w.
  - simpl. by rewrite write_nil.
  - cbn [printLoop]. rewrite imap_cons. cbn [concatAll foldr].
    fold (concatAll (imap ((λ k, memberText total (n + k)) ∘ S) rest)).
    rewrite (imap_ext _ (λ k, memberText total (S n + k)))
      by (intros; simpl; f_equal; lia).
    rewrite Nat.add_0_r.
    rewrite <- (write_then f (memberText total n kep) _
                  (printLoop f (Z.of_nat total) (Z.of_nat (S n)) rest))
      by (intros; apply IH).
    unfold mbind, M_bind, bind. rewrite printProposal_run.
    by replace (Z.of_nat n + 1) with (Z.of_nat (S n)) by lia.
Qed.

Lemma printJSONOutput_run (filePath : string) (proposals : Proposals)
    (w : World) :
  Create sys filePath = None →
  printJSONOutput filePath proposals w
  = (Return None,
     {| stdout := stdout w +:+ ("Output file: " +:+ filePath +:+ nl)
                    +:+ ("Total KEPs: "
                           +:+ pretty (Z.of_nat (length proposals)) +:+ nl);
        stderr := stderr w;
        disk := <[filePath := objectText proposals]> (disk w) |}).
Proof.
  intros Hcreate. unfold printJSONOutput. rewrite Hcreate.
  unfold mbind, M_bind, bind, Printf, Fprintf, Fprintln, truncate.
  cbn [write].
  rewrite (printLoop_run _ _ _ 0%nat). 
  unfold write; cbn -[String.append alter insert].
  unfold mret, M_ret, ret. rewrite !alter_insert_eq.
  change (Sprintf _ [Str filePath]) with ("Output file: " +:+ filePath +:+ nl).
  change (Sprintf _ [Int ?n]) with ("Total KEPs: " +:+ pretty n +:+ nl).
  unfold objectText, members. rewrite !append_assoc. reflexivity.
Qed.

Lemma written_write {A} (m : Stream → M A) (text : string) :
  (∀ f w, (m f w).2 = (write f text w).2) → written m = text.
Proof.
  intros Hm. unfold written. rewrite Hm. unfold write. cbn [snd disk].
  by rewrite alter_singleton_eq, lookup_singleton_eq.
Qed.

Lemma written_printProposal (total n : nat) (kep : Proposal) :
  written (λ f, printProposal f (Z.of_nat total) (Z.of_nat n) kep)
  = memberText total n kep.
Proof. apply written_write. intros f w. by rewrite printProposal_run. Qed.

(** ** Reading string literals *)

Lemma stringBody_plain (l rest : list Z) :
  Forall (λ b, json.plain b = true) l →
  ∀ fuel, (length l < fuel)%nat →
    json.stringBody fuel (l ++ 34 :: rest) = Some (l, rest).
Proof.
  induction 1 as [|b l Hb _ IH]; intros fuel Hfuel.
  - destruct fuel; [simpl in Hfuel; lia | reflexivity].
  - destruct fuel as [|fuel]; [simpl in Hfuel; lia|].
    simpl in Hfuel. cbn [app json.stringBody].
    unfold json.plain in Hb. 
    destruct (Z.eqb_spec b 34); [by rewrite !andb_false_r in Hb|].
    destruct (Z.eqb_spec b 92); [by rewrite !andb_false_r in Hb|].
    destruct (Z.ltb_spec b 0x20);
      [destruct (Z.leb_spec 0x20 b); [lia | done] |].
    rewrite IH by lia. reflexivity.
Qed.

Lemma hexdigit_plain (n : Z) :
  Forall (λ b, json.plain b = true) (bytes_of_string (hexdigit n)).
Proof.
  unfold hexdigit. generalize (Z.to_nat n). intros k.
  do 16 (destruct k as [|k]; [by repeat constructor|]).
  constructor.
Qed.

Lemma hexEncode_plain (l : list Z) :
  Forall (λ b, json.plain b = true) (bytes_of_string (hexEncode l)).
Proof.
  induction l as [|b l IH]; [constructor|].
  cbn [hexEncode foldr]. unfold hex_byte.
  rewrite !bytes_of_string_app, !Forall_app. auto using hexdigit_plain.
Qed.

Lemma keyOf_memberText (total n : nat) (kep : Proposal) :
  keyOf (memberText total n kep) = Some (identifier kep).
Proof.
  unfold keyOf, memberText.
  assert (Forall (λ b, json.plain b = true)
            (bytes_of_string (identifier kep))) as Hplain
    by apply hexEncode_plain.
  generalize dependent (identifier kep). intros k Hplain.
  change (tab +:+ dq +:+ ?t) with (String "009" (String "034" t)).
  change (bytes_of_string (String "009" (String "034" ?t)))
    with (9 :: 34 :: bytes_of_string t).
  rewrite bytes_of_string_app.
  change (bytes_of_string (dq +:+ ?t)) with (34 :: bytes_of_string t).
  cbn [json.skipWs Z.eqb Pos.eqb orb].
  rewrite stringBody_plain by (rewrite ?length_app; simpl; (done || lia)).
  cbn [mbind option_bind]. by rewrite string_of_bytes_of_string.
Qed.

(** C1.  The key under which a record is written is the lowercase hex
    encoding of the MD5 checksum of [OwningSIG + ":" + Title]; a record
    that agrees with it on these two fields is written under the same key,
    whatever its other fields and its position are. *)
Theorem identifier_key (kep kep' : Proposal) (total n total' n' : nat) :
  OwningSIG kep' = OwningSIG kep →
  Title kep' = Title kep →
  keyOf (written (λ f, printProposal f (Z.of_nat total) (Z.of_nat n) kep))
  = Some (hexEncode (md5.Sum (bytes_of_string
                                (OwningSIG kep +:+ ":" +:+ Title kep))))
  ∧ keyOf (written (λ f, printProposal f (Z.of_nat total') (Z.of_nat n') kep'))
    = keyOf (written (λ f, printProposal f (Z.of_nat total) (Z.of_nat n) kep)).
Proof.
  intros Hsig Htitle. rewrite !written_printProposal, !keyOf_memberText.
  split; [reflexivity|]. unfold identifier. by rewrite Hsig, Htitle.
Qed.

(** ** What [json.Marshal] writes is valid JSON *)

Lemma byte_of_ascii_of_byte (b : Z) :
  isByte b → byte_of_ascii (ascii_of_byte b) = b.
Proof.
  intros [Hlo Hhi]. unfold byte_of_ascii, ascii_of_byte.
  rewrite N_ascii_embedding by lia. lia.
Qed.

Lemma bytes_of_string_of_bytes (l : list Z) :
  Forall isByte l → bytes_of_string (string_of_bytes l) = l.
Proof.
  unfold bytes_of_string, string_of_bytes.
  rewrite list_ascii_of_string_of_list_ascii, map_map.
  induction 1 as [|b l Hb _ IH]; [reflexivity|].
  simpl. by rewrite byte_of_ascii_of_byte, IH.
Qed.

Lemma bytes_of_string_chr (b : Z) : isByte b → bytes_of_string (chr b) = [b].
Proof. intros Hb. apply (bytes_of_string_of_bytes [b]). by constructor. Qed.

Lemma isByte_bytes_of_string (s : string) : Forall isByte (bytes_of_string s).
Proof.
  unfold bytes_of_string. apply Forall_map, Forall_forall. intros a _.
  unfold isByte, byte_of_ascii. pose proof (N_ascii_bounded a). lia.
Qed.

Lemma reads_nil (fuel : nat) (rest : list Z) :
  (0 < fuel)%nat → json.reads fuel [] rest.
Proof. intros Hfuel. destruct fuel; [lia|]. by exists []. Qed.

Lemma reads_plain (b : Z) (fuel : nat) (text rest : list Z) :
  json.plain b = true →
  json.reads fuel text rest → json.reads (S fuel) (b :: text) rest.
Proof.
  intros Hb [v Hv]. exists (b :: v). cbn [app json.stringBody].
  unfold json.plain in Hb.
  destruct (Z.eqb_spec b 34); [by rewrite !andb_false_r in Hb|].
  destruct (Z.eqb_spec b 92); [by rewrite !andb_false_r in Hb|].
  destruct (Z.ltb_spec b 0x20);
    [destruct (Z.leb_spec 0x20 b); [lia | done] |].
  by rewrite Hv.
Qed.

Lemma reads_plains (l : list Z) (fuel : nat) (text rest : list Z) :
  Forall (λ b, json.plain b = true) l →
  json.reads fuel text rest → json.reads (length l + fuel) (l ++ text) rest.
Proof.
  intros Hl Hreads. induction Hl as [|b l Hb _ IH]; [done|].
  by apply reads_plain.
Qed.

(** The two-character escapes. *)
Lemma reads_escape (e : Z) (fuel : nat) (text rest : list Z) :
  e ∈ [34; 92; 110; 114; 116] →
  json.reads fuel text rest → json.reads (S fuel) (92 :: e :: text) rest.
Proof.
  intros He [v Hv]. cbn [app]. unfold json.reads.
  repeat (apply elem_of_cons in He as [->|He];
          [cbn [json.stringBody]; simpl; rewrite Hv; by eexists|]).
  by apply elem_of_nil in He.
Qed.

(** The escape of a code point that is not a high surrogate, in four hex
    digits. *)
Lemma reads_u (h1 h2 h3 h4 c : Z) (fuel : nat) (text rest : list Z) :
  json.hex4 [h1; h2; h3; h4] = Some (c, []) →
  utf8.between 0xD800 0xDBFF c = false →
  json.reads fuel text rest →
  json.reads (S fuel) (92 :: 117 :: h1 :: h2 :: h3 :: h4 :: text) rest.
Proof.
  intros Hhex Hc [v Hv]. exists (utf8.EncodeRune c ++ v).
  cbn [app json.stringBody]. simpl (_ =? _). cbv iota.
  assert (json.hex4 (h1 :: h2 :: h3 :: h4 :: text ++ 34 :: rest)
          = Some (c, text ++ 34 :: rest)) as ->.
  { unfold json.hex4 in *. repeat case_match; by simplify_eq. }
  cbn [mbind option_bind].
  by rewrite Hc, Hv.
Qed.

Lemma hexdigit_hexval (n : Z) :
  0 ≤ n < 16 →
  ∃ h, bytes_of_string (hexdigit n) = [h] ∧ json.hexval h = Some n.
Proof.
  intros Hn.
  assert (n ∈ [0; 1; 2; 3; 4; 5; 6; 7; 8; 9; 10; 11; 12; 13; 14; 15])
    as Hcases by (rewrite !elem_of_cons; lia).
  repeat (apply elem_of_cons in Hcases as [->|Hcases];
          [eexists; split; reflexivity|]).
  by apply elem_of_nil in Hcases.
Qed.

Lemma between_true (lo hi b : Z) :
  utf8.between lo hi b = true ↔ lo ≤ b ≤ hi.
Proof. unfold utf8.between. rewrite andb_true_iff, !Z.leb_le. done. Qed.

Lemma lead_range (b : Z) (n : nat) (lo hi : Z) :
  utf8.lead b = Some (n, lo, hi) →
  0x80 ≤ lo ∧ (n = 2 ∨ n = 3 ∨ n = 4)%nat.
Proof.
  unfold utf8.lead. repeat case_match; intros; simplify_eq; lia.
Qed.

(** A sequence that [DecodeRune] does not reject has two to four bytes,
    all of them above the ASCII range. *)
Lemma DecodeRune_cases (b : Z) (t : list Z) (c : Z) (size : nat) :
  0x80 ≤ b →
  utf8.DecodeRune (b :: t) = (c, size) →
  (c = utf8.RuneError ∧ size = 1%nat)
  ∨ ((2 ≤ size)%nat ∧ (size ≤ length (b :: t))%nat
     ∧ Forall (λ x, 0x80 ≤ x) (take size (b :: t))).
Proof.
  intros Hb. unfold utf8.DecodeRune.
  destruct (Z.ltb_spec b 0x80); [lia|].
  destruct (utf8.lead b) as [[[n lo] hi]|] eqn:Hlead;
    [|intros; simplify_eq; by left].
  apply lead_range in Hlead as [Hlo Hn].
  unfold utf8.cont.
  destruct Hn as [-> | [-> | ->]];
    repeat case_match; intros; simplify_eq; try (by left); right;
    repeat match goal with
      | H : _ && _ = true |- _ => apply andb_prop in H as [? ?]
      | H : utf8.between _ _ _ = true |- _ => apply between_true in H
      end;
    (split; [lia|]); (split; [simpl; lia|]);
    cbn [take]; repeat constructor; lia.
Qed.

Lemma htmlSafe_plain (b : Z) : json.htmlSafe b = true → json.plain b = true.
Proof.
  unfold json.htmlSafe, json.plain. intros H.
  repeat (apply andb_prop in H as [H ?]).
  repeat (apply andb_true_intro; split); done.
Qed.

Lemma high_plain (l : list Z) :
  Forall (λ x, 0x80 ≤ x) l → Forall (λ b, json.plain b = true) l.
Proof.
  intros Hl. eapply Forall_impl; [done|]. intros x Hx. simpl in Hx.
  unfold json.plain.
  destruct (Z.leb_spec 0x20 x), (Z.eqb_spec x 34), (Z.eqb_spec x 92);
    (done || lia).
Qed.

(** The escape written for an ASCII byte is read back as one character. *)
Lemma reads_ascii_escape (b : Z) (fuel : nat) (text rest : list Z) :
  0 ≤ b < 0x80 →
  json.reads fuel text rest →
  json.reads (S fuel) (bytes_of_string (json.escape b) ++ text) rest.
Proof.
  intros Hb Hreads.
  destruct (Z.eqb_spec b 92) as [->|];
    [apply (reads_escape 92); [repeat constructor | done]|].
  destruct (Z.eqb_spec b 34) as [->|];
    [apply (reads_escape 34); [repeat constructor | done]|].
  destruct (Z.eqb_spec b 10) as [->|];
    [apply (reads_escape 110); [repeat constructor | done]|].
  destruct (Z.eqb_spec b 13) as [->|];
    [apply (reads_escape 114); [repeat constructor | done]|].
  destruct (Z.eqb_spec b 9) as [->|];
    [apply (reads_escape 116); [repeat constructor | done]|].
  unfold json.escape.
  repeat match goal with
         | |- context [b =? ?k] => destruct (Z.eqb_spec b k); [lia|]
         end.
  cbn [orb].
  assert (0 ≤ b / 16 < 16) as Hq
    by (split; [apply Z.div_pos | apply Z.div_lt_upper_bound]; lia).
  assert (0 ≤ b mod 16 < 16) as Hr by (apply Z.mod_pos_bound; lia).
  destruct (hexdigit_hexval (b / 16)) as (h1 & Hh1 & Hv1); [done|].
  destruct (hexdigit_hexval (b mod 16)) as (h2 & Hh2 & Hv2); [done|].
  rewrite !bytes_of_string_app, Hh1, Hh2.
  apply (reads_u 48 48 h1 h2 (b / 16 * 16 + b mod 16));
    [|apply andb_false_intro1, Z.leb_gt; lia|done].
  unfold json.hex4. rewrite Hv1, Hv2. cbn [json.hexval utf8.between].
  simpl; repeat f_equal; lia.
Qed.

Lemma length_DecodeRune (b : Z) (t : list Z) (c : Z) (size : nat) :
  0x80 ≤ b →
  utf8.DecodeRune (b :: t) = (c, size) →
  (1 ≤ size ≤ length (b :: t))%nat.
Proof.
  intros Hb Hdec.
  destruct (DecodeRune_cases b t c size Hb Hdec) as [[_ ->]|(? & ? & _)];
    simpl in *; lia.
Qed.

Lemma reads_encodeLoop (fuel : nat) :
  ∀ (s : list Z) (F : nat) (rest : list Z),
    (length s ≤ fuel)%nat →
    Forall isByte s →
    (length (bytes_of_string (json.encodeLoop fuel s)) < F)%nat →
    json.reads F (bytes_of_string (json.encodeLoop fuel s)) rest.
Proof.
  induction fuel as [|fuel IH]; intros s F rest Hlen Hbytes HF.
  - destruct s; [|simpl in Hlen; lia]. apply reads_nil. lia.
  - destruct s as [|b t]; [apply reads_nil; lia|].
    apply Forall_cons in Hbytes as [[Hb0 Hb1] Ht]. simpl in Hlen.
    cbn [json.encodeLoop] in *.
    destruct (Z.ltb_spec b 0x80) as [Hascii|Hhigh].
    + rewrite bytes_of_string_app, length_app in *.
      destruct F as [|F]; [lia|].
      destruct (json.htmlSafe b) eqn:Hsafe.
      * rewrite bytes_of_string_chr in * by done. simpl in HF.
        apply reads_plain; [by apply htmlSafe_plain|].
        apply IH; [lia | done | lia].
      * apply reads_ascii_escape; [lia|].
        apply IH; [lia | done |].
        assert (0 < length (bytes_of_string (json.escape b)))%nat;
          [|lia].
        unfold json.escape. rewrite bytes_of_string_app, length_app.
        simpl. lia.
    + destruct (utf8.DecodeRune (b :: t)) as [c size] eqn:Hdec.
      pose proof (length_DecodeRune b t c size Hhigh Hdec) as Hsize.
      assert (length (drop size (b :: t)) ≤ fuel)%nat as Hdrop
        by (rewrite length_drop; simpl in *; lia).
      assert (Forall isByte (drop size (b :: t))) as Hrest
        by (apply Forall_drop; by repeat constructor).
      destruct ((c =? utf8.RuneError) && (size =? 1)%nat) eqn:Hinvalid;
        [|destruct ((c =? 8232) || (c =? 8233)) eqn:Hsep].
      * rewrite !bytes_of_string_app, !length_app in *.
        destruct F as [|F]; [lia|].
        apply (reads_u 102 102 102 100 0xFFFD); [reflexivity | reflexivity |].
        apply IH; [done | done | simpl in HF; lia].
      * rewrite !bytes_of_string_app, !length_app in *.
        destruct F as [|F]; [lia|].
        apply orb_prop in Hsep as [->%Z.eqb_eq | ->%Z.eqb_eq].
        -- apply (reads_u 50 48 50 56 0x2028); [reflexivity | reflexivity |].
           apply IH; [done | done | simpl in HF; lia].
        -- apply (reads_u 50 48 50 57 0x2029); [reflexivity | reflexivity |].
           apply IH; [done | done | simpl in HF; lia].
      * destruct (DecodeRune_cases b t c size Hhigh Hdec)
          as [[-> ->]|(Hsize2 & _ & Hall)]; [done|].
        assert (Forall isByte (take size (b :: t))) as Htake
          by (apply Forall_take; by repeat constructor).
        rewrite bytes_of_string_app, length_app,
          bytes_of_string_of_bytes in * by done.
        replace F with (length (take size (b :: t))
                        + (F - length (take size (b :: t))))%nat by lia.
        apply reads_plains; [by apply high_plain|].
        apply IH; [done | done | lia].
Qed.

Lemma bytes_MarshalString (s : string) :
  bytes_of_string (json.MarshalString s)
  = 34 :: bytes_of_string
            (json.encodeLoop (length (bytes_of_string s)) (bytes_of_string s))
      ++ [34].
Proof.
  unfold json.MarshalString. cbv zeta.
  change (dq +:+ ?t) with (String "034" t).
  change (bytes_of_string (String "034" ?t)) with (34 :: bytes_of_string t).
  by rewrite bytes_of_string_app.
Qed.

(** A string literal standing where a value is expected is read up to its
    closing quote and the white space after it. *)
Lemma value_literal (text rest : list Z) (fuel : nat) :
  (∀ F r, (length text < F)%nat → json.reads F text r) →
  json.value (S fuel) (34 :: text ++ 34 :: rest) = Some (json.skipWs rest).
Proof.
  intros Hreads. cbn [json.value json.skipWs]. simpl (_ =? _). cbn [orb].
  destruct (Hreads (length (text ++ 34 :: rest)) rest) as [v Hv].
  { rewrite length_app. simpl. lia. }
  by rewrite Hv.
Qed.

Lemma value_MarshalString (s : string) (rest : list Z) (fuel : nat) :
  json.value (S fuel) (bytes_of_string (json.MarshalString s) ++ rest)
  = Some (json.skipWs rest).
Proof.
  rewrite bytes_MarshalString. cbn [app]. rewrite <- app_assoc. cbn [app].
  apply value_literal. intros F r HF.
  apply reads_encodeLoop; [done | apply isByte_bytes_of_string | done].
Qed.

Lemma MarshalString_valid (s : string) :
  json.Valid (json.MarshalString s) = true.
Proof.
  unfold json.Valid. cbv zeta.
  rewrite <- (app_nil_r (bytes_of_string (json.MarshalString s))) at 2.
  by rewrite value_MarshalString.
Qed.

Lemma skipWs_MarshalString (s : string) (rest : list Z) :
  ∃ t, bytes_of_string (json.MarshalString s) ++ rest = 34 :: t.
Proof. rewrite bytes_MarshalString. by eexists. Qed.

Lemma joinComma_cons (x y : string) (l : list string) :
  json.joinComma (x :: y :: l) = x +:+ "," +:+ json.joinComma (y :: l).
Proof. reflexivity. Qed.

Lemma elements_eq (fuel : nat) (s : list Z) :
  json.elements (S fuel) s
  = match json.value fuel s with
    | Some (44 :: r) => json.elements fuel r
    | Some (93 :: r) => Some (json.skipWs r)
    | _ => None
    end.
Proof. reflexivity. Qed.

Lemma elements_strings (l : list string) :
  ∀ (fuel : nat) (rest : list Z),
    l ≠ [] → (length l < fuel)%nat →
    json.elements fuel
      (bytes_of_string (json.joinComma (map json.MarshalString l))
         ++ 93 :: rest)
    = Some (json.skipWs rest).
Proof.
  induction l as [|x l IH]; intros fuel rest Hne Hfuel; [done|].
  destruct fuel as [|[|fuel]]; [simpl in Hfuel; lia.. |].
  rewrite elements_eq. destruct l as [|y l].
  - change (json.joinComma (map json.MarshalString [x]))
      with (json.MarshalString x).
    by rewrite value_MarshalString.
  - rewrite !map_cons, joinComma_cons, !bytes_of_string_app, <- !app_assoc.
    rewrite value_MarshalString.
    change (bytes_of_string "," ++ ?t) with (44 :: t).
    change (json.skipWs (44 :: ?t)) with (44 :: t). cbv iota.
    rewrite <- map_cons. apply IH; [done | simpl in *; lia].
Qed.

Lemma value_MarshalStrings (a : option (list string)) (rest : list Z)
    (fuel : nat) :
  (len a < fuel)%nat →
  json.value (S fuel) (bytes_of_string (json.MarshalStrings a) ++ rest)
  = Some (json.skipWs rest).
Proof.
  intros Hfuel. destruct a as [[|x l]|]; [reflexivity | | reflexivity].
  unfold json.MarshalStrings.
  change ("[" +:+ ?t) with (String "[" t).
  change (bytes_of_string (String "[" ?t)) with (91 :: bytes_of_string t).
  rewrite bytes_of_string_app. cbn [app]. rewrite <- app_assoc.
  change (bytes_of_string "]" ++ rest) with (93 :: rest).
  cbn [json.value json.skipWs]. simpl (_ =? _). cbn [orb].
  assert (∃ t, bytes_of_string
                 (json.joinComma (map json.MarshalString (x :: l)))
               ++ 93 :: rest = 34 :: t) as [t Ht].
  { destruct l; cbn [map json.joinComma];
      rewrite ?bytes_of_string_app, <- ?app_assoc;
      apply skipWs_MarshalString. }
  rewrite Ht. cbn [json.skipWs]. simpl (_ =? _). cbn [orb]. rewrite <- Ht.
  by apply elements_strings.
Qed.

Lemma length_MarshalStrings (a : option (list string)) :
  (len a < length (bytes_of_string (json.MarshalStrings a)))%nat.
Proof.
  destruct a as [l|]; [|vm_compute; lia]. unfold len, json.MarshalStrings.
  change (default [] (Some l)) with l.
  rewrite !bytes_of_string_app, !length_app.
  change (length (bytes_of_string "[")) with 1%nat.
  assert (length l ≤ length (bytes_of_string
                               (json.joinComma (map json.MarshalString l))))%nat;
    [|lia].
  induction l as [|x [|y l] IH]; [simpl; lia | |].
  - cbn [map json.joinComma]. rewrite bytes_MarshalString. simpl. lia.
  - cbn [map json.joinComma] in *.
    rewrite !bytes_of_string_app, !length_app, bytes_MarshalString.
    simpl in *. lia.
Qed.

Lemma MarshalStrings_valid (a : option (list string)) :
  json.Valid (json.MarshalStrings a) = true.
Proof.
  unfold json.Valid. cbv zeta.
  rewrite <- (app_nil_r (bytes_of_string (json.MarshalStrings a))) at 2.
  rewrite value_MarshalStrings; [done|]. apply length_MarshalStrings.
Qed.

(** ** The object is valid JSON when the quoted fields are plain *)

Ltac norm_app := repeat first [progress cbn [app] | rewrite <- app_assoc].

Lemma members_eq (fuel : nat) (s : list Z) :
  json.members (S fuel) s
  = match json.skipWs s with
    | 34 :: t =>
        '(_, r) ← json.stringBody (length t) t;
        match json.skipWs r with
        | 58 :: r' =>
            match json.value fuel r' with
            | Some (44 :: r'') => json.members fuel r''
            | Some (125 :: r'') => Some (json.skipWs r'')
            | _ => None
            end
        | _ => None
        end
    | _ => None
    end.
Proof. reflexivity. Qed.

(** One member: a plain name, a colon, and a value. *)
Lemma members_step (s V r : list Z) (name : string) (fuel : nat) :
  json.skipWs s = 34 :: bytes_of_string name ++ 34 :: 58 :: V →
  plainText name →
  json.value fuel V = Some r →
  json.members (S fuel) s
  = match r with
    | 44 :: r' => json.members fuel r'
    | 125 :: r' => Some (json.skipWs r')
    | _ => None
    end.
Proof.
  intros Hs Hname HV. rewrite members_eq, Hs.
  rewrite stringBody_plain by (rewrite ?length_app; simpl; (done || lia)).
  cbn [mbind option_bind].
  change (json.skipWs (58 :: V)) with (58 :: V). cbv iota.
  by rewrite HV.
Qed.

Lemma value_object (s t t' : list Z) (fuel : nat) :
  json.skipWs s = 123 :: t →
  json.skipWs t = 34 :: t' →
  json.value (S fuel) s = json.members fuel t.
Proof. intros Hs Ht. cbn [json.value]. by rewrite Hs, Ht. Qed.

Lemma value_space (s : list Z) (fuel : nat) :
  json.value (S fuel) (32 :: s) = json.value (S fuel) s.
Proof. reflexivity. Qed.

Lemma bytes_quotedLine (name v : string) :
  bytes_of_string (quotedLine name v)
  = 9 :: 9 :: 34 :: bytes_of_string name
      ++ 34 :: 58 :: 32 :: 34 :: bytes_of_string v ++ [34; 44; 10].
Proof. unfold quotedLine. rewrite !bytes_of_string_app. reflexivity. Qed.

Lemma bytes_jsonLine (name v : string) :
  bytes_of_string (jsonLine name v)
  = 9 :: 9 :: 34 :: bytes_of_string name
      ++ 34 :: 58 :: 32 :: bytes_of_string v ++ [44; 10].
Proof. unfold jsonLine. rewrite !bytes_of_string_app. reflexivity. Qed.

Lemma bytes_lastLine (name v : string) :
  bytes_of_string (lastLine name v)
  = 9 :: 9 :: 34 :: bytes_of_string name
      ++ 34 :: 58 :: 32 :: bytes_of_string v ++ [10].
Proof. unfold lastLine. rewrite !bytes_of_string_app. reflexivity. Qed.

Lemma members_quotedLine (name v : string) (rest : list Z) (fuel : nat) :
  plainText name → plainText v →
  json.members (S (S fuel)) (bytes_of_string (quotedLine name v) ++ rest)
  = json.members (S fuel) rest.
Proof.
  intros Hname Hv. rewrite bytes_quotedLine.
  rewrite (members_step _
             (32 :: 34 :: bytes_of_string v ++ 34 :: 44 :: 10 :: rest)
             (44 :: 10 :: rest) name); [reflexivity| |done|].
  - norm_app. reflexivity.
  - rewrite value_space, value_literal; [reflexivity|].
    intros F r HF. exists (bytes_of_string v). by apply stringBody_plain.
Qed.

Lemma members_jsonLine (name : string) (a : option (list string))
    (rest : list Z) (fuel : nat) :
  plainText name → (len a < fuel)%nat →
  json.members (S (S fuel))
    (bytes_of_string (jsonLine name (json.MarshalStrings a)) ++ rest)
  = json.members (S fuel) rest.
Proof.
  intros Hname Hlen. rewrite bytes_jsonLine.
  rewrite (members_step _
             (32 :: bytes_of_string (json.MarshalStrings a)
                ++ 44 :: 10 :: rest)
             (44 :: 10 :: rest) name); [reflexivity| |done|].
  - norm_app. reflexivity.
  - by rewrite value_space, value_MarshalStrings.
Qed.

Lemma members_lastLine (name c : string) (rest : list Z) (fuel : nat) :
  plainText name →
  json.members (S (S fuel))
    (bytes_of_string (lastLine name (json.MarshalString c))
       ++ 9 :: 125 :: rest)
  = Some (json.skipWs rest).
Proof.
  intros Hname. rewrite bytes_lastLine.
  rewrite (members_step _
             (32 :: bytes_of_string (json.MarshalString c)
                ++ 10 :: 9 :: 125 :: rest)
             (125 :: rest) name); [reflexivity| |done|].
  - norm_app. reflexivity.
  - by rewrite value_space, value_MarshalString.
Qed.

Ltac plain_name := unfold plainText; simpl; by repeat constructor.

Lemma members_memberFields (kep : Proposal) (rest : list Z) (fuel : nat) :
  scalarsPlain kep → (seqTotal kep < fuel)%nat →
  json.members (14 + fuel)
    (bytes_of_string (memberFields kep) ++ 9 :: 125 :: rest)
  = Some (json.skipWs rest).
Proof.
  intros (Htitle & Hsig & Heditor & Hcreated & Hupdated & Hstatus) Hfuel.
  unfold seqTotal in Hfuel. unfold memberFields.
  rewrite !bytes_of_string_app, <- !app_assoc. cbn [Nat.add].
  rewrite !members_quotedLine by (done || plain_name).
  rewrite !members_jsonLine by (plain_name || lia).
  rewrite !members_quotedLine by (done || plain_name).
  rewrite !members_jsonLine by (plain_name || lia).
  apply members_lastLine. plain_name.
Qed.

Lemma bytes_memberText (total n : nat) (kep : Proposal) :
  bytes_of_string (memberText total n kep)
  = 9 :: 34 :: bytes_of_string (identifier kep)
      ++ 34 :: 58 :: 32 :: 123 :: 10 :: bytes_of_string (memberFields kep)
      ++ 9 :: 125 :: (if (S n <? total)%nat then [44; 10] else [10]).
Proof.
  unfold memberText. rewrite !bytes_of_string_app.
  by destruct (S n <? total)%nat.
Qed.

Lemma memberFields_head (kep : Proposal) (rest : list Z) :
  ∃ t, json.skipWs (bytes_of_string (memberFields kep) ++ rest) = 34 :: t.
Proof.
  unfold memberFields.
  rewrite !bytes_of_string_app, bytes_quotedLine, <- !app_assoc.
  by eexists.
Qed.

(** The value of a member: the object of its fields. *)
Lemma value_fields (kep : Proposal) (tail : list Z) (fuel : nat) :
  scalarsPlain kep → (seqTotal kep < fuel)%nat →
  json.value (15 + fuel)
    (32 :: 123 :: 10 :: bytes_of_string (memberFields kep)
       ++ 9 :: 125 :: tail)
  = Some (json.skipWs tail).
Proof.
  intros Hplain Hfuel.
  destruct (memberFields_head kep (9 :: 125 :: tail)) as [t Ht].
  change (15 + fuel)%nat with (S (14 + fuel)).
  rewrite value_space.
  rewrite (value_object _
             (10 :: bytes_of_string (memberFields kep) ++ 9 :: 125 :: tail)
             t); [|reflexivity|done].
  change (14 + fuel)%nat with (S (13 + fuel)).
  rewrite members_eq.
  change (json.skipWs (10 :: ?x)) with (json.skipWs x).
  rewrite <- members_eq. by apply members_memberFields.
Qed.

Lemma identifier_plain (kep : Proposal) : plainText (identifier kep).
Proof. apply hexEncode_plain. Qed.

Lemma members_memberText (total n : nat) (kep : Proposal) (rest : list Z)
    (fuel : nat) :
  scalarsPlain kep → (seqTotal kep < fuel)%nat →
  json.members (16 + fuel) (bytes_of_string (memberText total n kep) ++ rest)
  = if (S n <? total)%nat then json.members (15 + fuel) rest
    else match json.skipWs rest with
         | 125 :: r => Some (json.skipWs r)
         | 44 :: r => json.members (15 + fuel) r
         | _ => None
         end.
Proof.
  intros Hplain Hfuel. rewrite bytes_memberText.
  pose proof (identifier_plain kep) as Hid.
  generalize dependent (identifier kep). intros key Hkey.
  change (16 + fuel)%nat with (S (15 + fuel)).
  destruct (S n <? total)%nat.
  - rewrite (members_step _
               (32 :: 123 :: 10 :: bytes_of_string (memberFields kep)
                  ++ 9 :: 125 :: 44 :: 10 :: rest)
               (44 :: 10 :: rest) key).
    + change (15 + fuel)%nat with (S (14 + fuel)).
      rewrite (members_eq _ (10 :: rest)).
      change (json.skipWs (10 :: ?x)) with (json.skipWs x).
      by rewrite <- members_eq.
    + norm_app. reflexivity.
    + done.
    + by apply value_fields.
  - rewrite (members_step _
               (32 :: 123 :: 10 :: bytes_of_string (memberFields kep)
                  ++ 9 :: 125 :: 10 :: rest)
               (json.skipWs rest) key).
    + by destruct (json.skipWs rest) as [|[|[]|] ?].
    + norm_app. reflexivity.
    + done.
    + by apply (value_fields kep (10 :: rest)).
Qed.

Lemma sum_seqTotal_cons (kep : Proposal) (ps : Proposals) :
  sum_list (seqTotal <$> kep :: ps)
  = (seqTotal kep + sum_list (seqTotal <$> ps))%nat.
Proof. reflexivity. Qed.

Lemma members_all (total : nat) (proposals : Proposals) :
  ∀ (n fuel : nat) (rest : list Z),
    proposals ≠ [] →
    (n + length proposals = total)%nat →
    Forall scalarsPlain proposals →
    (length proposals + 16 + sum_list (seqTotal <$> proposals) < fuel)%nat →
    json.members fuel
      (bytes_of_string
         (concatAll (imap (λ k, memberText total (n + k)) proposals))
         ++ 125 :: rest)
    = Some (json.skipWs rest).
Proof.
  induction proposals as [|kep ps IH]; intros n fuel rest Hne Hn Hplain Hfuel;
    [done|].
  apply Forall_cons in Hplain as [Hkep Hps].
  rewrite imap_cons. cbn [concatAll foldr].
  fold (concatAll (imap ((λ k, memberText total (n + k)) ∘ S) ps)).
  rewrite (imap_ext _ (λ k, memberText total (S n + k)))
    by (intros; simpl; f_equal; lia).
  rewrite Nat.add_0_r, bytes_of_string_app, <- app_assoc.
  rewrite sum_seqTotal_cons in Hfuel. cbn [length] in Hfuel, Hn.
  replace fuel with (16 + (fuel - 16))%nat by lia.
  rewrite members_memberText by (done || lia).
  destruct ps as [|kep' ps].
  - replace (S n <? total)%nat with false
      by (symmetry; apply Nat.ltb_ge; cbn [length] in Hn; lia).
    reflexivity.
  - replace (S n <? total)%nat with true
      by (symmetry; apply Nat.ltb_lt; cbn [length] in Hn; lia).
    apply IH; [done | cbn [length] in *; lia | done |].
    cbn [length] in *. lia.
Qed.

Lemma length_memberText (total n : nat) (kep : Proposal) :
  (seqTotal kep + 17 ≤ length (bytes_of_string (memberText total n kep)))%nat.
Proof.
  rewrite bytes_memberText. unfold memberFields, seqTotal.
  rewrite !bytes_of_string_app, !bytes_jsonLine.
  pose proof (length_MarshalStrings (ParticipatingSIGs kep)).
  pose proof (length_MarshalStrings (Reviewers kep)).
  pose proof (length_MarshalStrings (Authors kep)).
  pose proof (length_MarshalStrings (SeeAlso kep)).
  pose proof (length_MarshalStrings (Replaces kep)).
  pose proof (length_MarshalStrings (SupersededBy kep)).
  repeat (rewrite ?length_app; cbn [length]). lia.
Qed.

Lemma length_members_text (total : nat) (proposals : Proposals) :
  ∀ n,
    (17 * length proposals + sum_list (seqTotal <$> proposals)
     ≤ length (bytes_of_string
                 (concatAll (imap (λ k, memberText total (n + k)) proposals))))%nat.
Proof.
  induction proposals as [|kep ps IH]; intros n; [simpl; lia|].
  rewrite imap_cons. cbn [concatAll foldr].
  fold (concatAll (imap ((λ k, memberText total (n + k)) ∘ S) ps)).
  rewrite (imap_ext _ (λ k, memberText total (S n + k)))
    by (intros; simpl; f_equal; lia).
  rewrite bytes_of_string_app, length_app.
  pose proof (length_memberText total (n + 0) kep).
  specialize (IH (S n)).
  rewrite sum_seqTotal_cons. cbn [length]. lia.
Qed.

(** When the six quoted fields of every record are plain, the object
    written for the collection is valid JSON: the commas stand between
    consecutive members and nowhere else. *)
Lemma objectText_valid (proposals : Proposals) :
  Forall scalarsPlain proposals → json.Valid (objectText proposals) = true.
Proof.
  intros Hplain. destruct proposals as [|kep ps]; [reflexivity|].
  unfold json.Valid, objectText, members. cbv zeta.
  change (imap (memberText ?total) ?l)
    with (imap (λ k, memberText total (0 + k)) l).
  set (text := concatAll (imap _ (kep :: ps))).
  assert (bytes_of_string ("{" +:+ nl +:+ text +:+ "}" +:+ nl)
          = 123 :: 10 :: bytes_of_string text ++ 125 :: [10]) as ->
    by (rewrite !bytes_of_string_app; reflexivity).
  pose proof (length_members_text (length (kep :: ps)) (kep :: ps) 0)
    as Hlen.
  fold text in Hlen.
  assert (∃ t, json.skipWs (10 :: bytes_of_string text ++ 125 :: [10])
               = 34 :: t) as [t Ht].
  { subst text. rewrite imap_cons. cbn [concatAll foldr].
    rewrite bytes_of_string_app, bytes_memberText. by eexists. }
  rewrite (value_object _ (10 :: bytes_of_string text ++ 125 :: [10]) t);
    [|reflexivity|done].
  cbn [length] in *.
  rewrite length_app. cbn [length].
  replace (S (S (length (bytes_of_string text) + 2)))
    with (S (length (bytes_of_string text) + 3)) by lia.
  rewrite members_eq.
  change (json.skipWs (10 :: ?x)) with (json.skipWs x).
  rewrite <- members_eq.
  rewrite sum_seqTotal_cons in Hlen. cbn [length] in Hlen.
  subst text.
  rewrite (members_all (S (length ps)) (kep :: ps) 0); [done..|].
  rewrite sum_seqTotal_cons. cbn [length]. lia.
Qed.

(** ** Runs of [parseFiles] *)

Lemma say_nil (w : World) : say EmptyString w = w.
Proof. destruct w. unfold say. simpl. by rewrite append_nil_r. Qed.

Lemma say_say (a b : string) (w : World) :
  say b (say a w) = say (a +:+ b) w.
Proof. unfold say. simpl. by rewrite append_assoc. Qed.

Lemma parseLoop_ok (files : list string) :
  ∀ (parsed acc : Proposals) (w : World),
    mapM document files = Some parsed →
    parseLoop files acc w
    = (Return (inr (acc ++ parsed)),
       say (concatAll (map successLine files)) w).
Proof.
  induction files as [|f files IH]; intros parsed acc w Hdocs.
  - injection Hdocs as <-. cbn [parseLoop]. by rewrite app_nil_r, say_nil.
  - rewrite mapM_Some in Hdocs.
    apply Forall2_cons_inv_l in Hdocs as (kep & rest & Hdoc & Hrest & ->).
    rewrite <- mapM_Some in Hrest.
    cbn [parseLoop]. unfold document in Hdoc.
    destruct (Open sys f) as [|file]; [done|].
    destruct (Error (Parse file)); [done|]. simplify_eq.
    unfold mbind, M_bind, bind, Printf, Fprintf. cbn [write].
    fold (say (Sprintf (">>>> parsed file successfully: %s" +:+ nl) [Str f]) w).
    rewrite (IH rest) by done. unfold AddProposal.
    rewrite say_say, <- app_assoc. reflexivity.
Qed.

Lemma parseLoop_fail (pre post : list string) (f file : string) (e : error) :
  ∀ (parsed acc : Proposals) (w : World),
    mapM document pre = Some parsed →
    Open sys f = inr file →
    Error (Parse file) = Some e →
    parseLoop (pre ++ f :: post) acc w
    = (Return (inl (errors.New (f +:+ " has an error: "
                                  +:+ Quote (errors.Error e) +:+ nl))),
       say (concatAll (map successLine pre)) w).
Proof.
  induction pre as [|g pre IH]; intros parsed acc w Hdocs Hopen Herr.
  - cbn [app parseLoop]. rewrite Hopen, Herr. by rewrite say_nil.
  - rewrite mapM_Some in Hdocs.
    apply Forall2_cons_inv_l in Hdocs as (kep & rest & Hdoc & Hrest & ->).
    rewrite <- mapM_Some in Hrest.
    cbn [app parseLoop]. unfold document in Hdoc.
    destruct (Open sys g) as [|gfile]; [done|].
    destruct (Error (Parse gfile)); [done|]. simplify_eq.
    unfold mbind, M_bind, bind, Printf, Fprintf. cbn [write].
    fold (say (Sprintf (">>>> parsed file successfully: %s" +:+ nl) [Str g]) w).
    rewrite (IH rest) by done. by rewrite say_say.
Qed.

(** ** The walk *)

Lemma Node_ind' (P : Node → Prop) :
  (∀ name, P (File name)) →
  (∀ name entries, Forall P entries → P (Dir name entries)) →
  (∀ name err, P (Unreadable name err)) →
  (∀ name err, P (Broken name err)) →
  ∀ n, P n.
Proof.
  intros HFile HDir HUnreadable HBroken. fix IH 1.
  intros [name|name entries|name err|name err];
    [apply HFile | apply HDir | apply HUnreadable | apply HBroken].
  induction entries as [|e entries IHentries]; constructor;
    [apply IH | apply IHentries].
Qed.

Lemma elem_of_ignoreList (name : string) :
  bool_decide (name ∈ ignoreList)
  = String.eqb name "0023-documentation-for-images.md"
    || String.eqb name "0004-cloud-provider-template.md"
    || String.eqb name "0001a-meta-kep-implementation.md"
    || String.eqb name "0001-kubernetes-enhancement-proposal-process.md"
    || String.eqb name "YYYYMMDD-kep-template.md"
    || String.eqb name "README.md"
    || String.eqb name "kep-faq.md".
Proof.
  unfold ignoreList.
  repeat match goal with
         | |- context [String.eqb name ?s] =>
             destruct (String.eqb_spec name s) as [->|?]; [by vm_compute|]
         end.
  apply bool_decide_eq_false. rewrite !elem_of_cons, elem_of_nil.
  intros H. repeat (destruct H as [H|H]; [done|]). done.
Qed.

Lemma ignore_eligible (name : string) : ignore name = negb (eligible name).
Proof.
  unfold ignore, eligible. rewrite elem_of_ignoreList.
  destruct (strings.HasSuffix name "md"); simpl;
    [|by rewrite andb_false_r].
  rewrite andb_true_r, negb_involutive.
  by destruct (_ || _).
Qed.

Lemma visit_file (path name : string) (files : list string) :
  visit path (Some {| Name := name; IsDir := false |}) None files
  = (files ++ (if eligible name then [path] else []), None).
Proof.
  unfold visit. cbn [IsDir Name]. rewrite ignore_eligible.
  destruct (eligible name); simpl; by rewrite ?app_nil_r.
Qed.

Lemma walk_ok (n : Node) :
  ∀ (path : string) (files : list string),
    treeOk n = true →
    filepath.walk Join visit path n files
    = (files ++ (List.filter (λ pn, eligible pn.2) (treePaths Join path n)).*1,
       None).
Proof.
  induction n as [name|name entries IH|name err|name err] using Node_ind';
    intros path files Hok; try done.
  - cbn [filepath.walk treePaths]. rewrite visit_file. simpl.
    by destruct (eligible name).
  - cbn [filepath.walk treePaths visit IsDir]. cbn [treeOk] in Hok.
    revert files.
    induction entries as [|e entries IHentries]; intros files.
    + cbn. by rewrite app_nil_r.
    + cbn [filepath.eachEntry flat_map].
      apply Forall_cons in IH as [He IH].
      cbn [forallb] in Hok. apply andb_prop in Hok as [Hok1 Hok2].
      rewrite He by done. 
      rewrite (IHentries IH Hok2).
      by rewrite List.filter_app, fmap_app, app_assoc.
Qed.

(** C9.  When nothing fails below the root, file discovery yields exactly
    the non-directory paths whose base name is outside the ignore-list and
    ends in [md], in the order of the walk. *)
Theorem findMarkdownFiles_eligible (dirPath : string) :
  treeOk (Tree sys dirPath) = true →
  findMarkdownFiles dirPath
  = ((List.filter (λ pn, eligible pn.2)
        (treePaths Join dirPath (Tree sys dirPath))).*1,
     None).
Proof.
  intros Hok. unfold findMarkdownFiles, filepath.Walk.
  by rewrite walk_ok.
Qed.

Lemma eligible_md (stem : string) :
  stem +:+ "md" ∉ ignoreList → eligible (stem +:+ "md") = true.
Proof.
  intros Hnot. unfold eligible. apply andb_true_intro. split.
  - by rewrite bool_decide_eq_false_2.
  - apply HasSuffix_spec. by exists stem.
Qed.

(** C10.  The extension check asks for the two characters [md] at the end
    of the name and for no dot before them: a file whose name is any stem
    followed by [md] and is not in the ignore-list is not ignored, and its
    path is among the files found. *)
Theorem md_suffix_without_dot (dirPath stem path : string) :
  treeOk (Tree sys dirPath) = true →
  (path, stem +:+ "md") ∈ treePaths Join dirPath (Tree sys dirPath) →
  stem +:+ "md" ∉ ignoreList →
  ignore (stem +:+ "md") = false ∧ path ∈ (findMarkdownFiles dirPath).1.
Proof.
  intros Hok Hin Hnot. pose proof (eligible_md stem Hnot) as Hel. split.
  - by rewrite ignore_eligible, Hel.
  - unfold findMarkdownFiles, filepath.Walk. rewrite walk_ok by done.
    cbn [fst app]. apply list_elem_of_fmap.
    exists (path, stem +:+ "md"). split; [done|].
    apply list_elem_of_In, List.filter_In. split; [|done].
    by apply list_elem_of_In.
Qed.

Lemma walk_none (n : Node) :
  ∀ (path : string) (files : list string),
    (∀ pn, pn ∈ treePaths Join path n → eligible pn.2 = false) →
    ∃ err, filepath.walk Join visit path n files = (files, err).
Proof.
  induction n as [name|name entries IH|name err|name err] using Node_ind';
    intros path files Hnone; try by eexists.
  - cbn [filepath.walk]. rewrite visit_file.
    specialize (Hnone (path, name) (list_elem_of_here _ _)).
    cbn [snd] in Hnone. rewrite Hnone, app_nil_r. by eexists.
  - cbn [filepath.walk visit IsDir]. cbn [treePaths] in Hnone.
    revert files.
    induction entries as [|e entries IHentries]; intros files;
      [by eexists|].
    cbn [filepath.eachEntry]. cbn [flat_map] in Hnone.
    apply Forall_cons in IH as [He IH].
    destruct (He (Join path (nodeName e)) files) as [err Hwalk].
    { intros pn Hpn. apply Hnone, elem_of_app. by left. }
    rewrite Hwalk. destruct err; [by eexists|].
    apply IHentries; [done|].
    intros pn Hpn. apply Hnone, elem_of_app. by right.
Qed.

(** ** Runs of [main] *)

Ltac main_start Hflags :=
  unfold main; destruct Hflags as (Hdir & Hstat & Hfile);
  rewrite (proj2 (Nat.eqb_neq _ _) Hdir), Hstat,
    (proj2 (Nat.eqb_neq _ _) Hfile);
  unfold when, mbind, M_bind, bind, mret, M_ret, ret, exit, Printf, Fprintf;
  cbn [write].

(** C8.  When no file below the root is eligible, [main] reports an error
    on the standard error and exits with status 1; it prints no progress
    line and leaves the disk as it was.  When the walk itself met no
    failure, the message is that no KEPs were found. *)
Theorem no_documents_exit (dirPath filePath : string) (w : World) :
  flagsOk dirPath filePath →
  Forall (λ pn, eligible pn.2 = false)
         (treePaths Join dirPath (Tree sys dirPath)) →
  ∃ msg,
    main dirPath filePath w = (Exit 1, complain msg w)
    ∧ (treeOk (Tree sys dirPath) = true →
       msg = "did not find any KEPs" +:+ nl).
Proof.
  intros Hflags Hnone. main_start Hflags.
  rewrite Forall_forall in Hnone.
  destruct (walk_none (Tree sys dirPath) dirPath [] Hnone) as [err Hwalk].
  unfold findMarkdownFiles, filepath.Walk. rewrite Hwalk.
  destruct err as [e|].
  - eexists. split; [reflexivity|].
    intros Hok. rewrite walk_ok in Hwalk by done. by simplify_eq.
  - eexists. split; [reflexivity|]. reflexivity.
Qed.

(** C5.  When the files before [f] parse and [f] yields a record with a
    parse error, [main] stops there: it exits with status 1, the message
    on the standard error names [f] and quotes the cause, the progress
    lines are those of the files before [f] only, and the disk is left as
    it was, whatever files follow [f]. *)
Theorem parse_error_aborts (dirPath filePath f file : string)
    (pre post : list string) (parsed : Proposals) (e : error) (w : World) :
  flagsOk dirPath filePath →
  findMarkdownFiles dirPath = (pre ++ f :: post, None) →
  mapM document pre = Some parsed →
  Open sys f = inr file →
  Error (Parse file) = Some e →
  main dirPath filePath w
  = (Exit 1,
     {| stdout := stdout w +:+ concatAll (map successLine pre);
        stderr := stderr w +:+ "error parsing files: "
                    +:+ Quote (f +:+ " has an error: "
                                 +:+ Quote (errors.Error e) +:+ nl)
                    +:+ nl;
        disk := disk w |}).
Proof.
  intros Hflags Hfind Hpre Hopen Herr. main_start Hflags. rewrite Hfind.
  replace (length (pre ++ f :: post) =? 0)%nat with false
    by (symmetry; apply Nat.eqb_neq; rewrite length_app; simpl; lia).
  unfold parseFiles.
  rewrite (parseLoop_fail pre post f file e parsed) by done.
  reflexivity.
Qed.

Lemma main_success (dirPath filePath : string) (files : list string)
    (proposals : Proposals) (w : World) :
  flagsOk dirPath filePath →
  findMarkdownFiles dirPath = (files, None) →
  files ≠ [] →
  mapM document files = Some proposals →
  Create sys filePath = None →
  main dirPath filePath w
  = (Return tt,
     {| stdout := stdout w +:+ concatAll (map successLine files)
                    +:+ ("Output file: " +:+ filePath +:+ nl)
                    +:+ ("Total KEPs: "
                           +:+ pretty (Z.of_nat (length proposals)) +:+ nl);
        stderr := stderr w;
        disk := <[filePath := objectText proposals]> (disk w) |}).
Proof.
  intros Hflags Hfind Hne Hdocs Hcreate. main_start Hflags. rewrite Hfind.
  replace (length files =? 0)%nat with false
    by (symmetry; apply Nat.eqb_neq; by destruct files).
  unfold parseFiles. rewrite (parseLoop_ok files proposals) by done.
  rewrite printJSONOutput_run by done. cbn [app say stdout stderr disk].
  by rewrite !append_assoc.
Qed.

Lemma members_lookup (proposals : Proposals) (n : nat) (kep : Proposal) :
  proposals !! n = Some kep →
  members proposals !! n
  = Some (written (λ out, printProposal out (Z.of_nat (length proposals))
                            (Z.of_nat n) kep)).
Proof.
  intros Hn. unfold members.
  by rewrite list_lookup_imap, Hn, written_printProposal.
Qed.

Lemma length_members (proposals : Proposals) :
  length (members proposals) = length proposals.
Proof. unfold members. apply length_imap. Qed.

Lemma documents_lookup (files : list string) (proposals : Proposals)
    (n : nat) (f : string) :
  mapM document files = Some proposals →
  files !! n = Some f →
  ∃ kep, document f = Some kep ∧ proposals !! n = Some kep.
Proof.
  rewrite mapM_Some. intros Hall Hn.
  destruct (Forall2_lookup_l _ _ _ _ _ Hall Hn) as (kep & Hkep & Hdoc).
  eauto.
Qed.

(** The text of the output file, piece by piece.  After a successful run
    the output file holds the texts of [members] between braces, one per
    file found; the text at position [n] is what [printProposal] writes
    for the proposal parsed from the file at position [n] of the
    traversal, and it starts with that proposal's identifier.  Whether a
    reader of the object takes these texts for its members depends on the
    quoted fields, which are written without escaping. *)
Theorem members_in_traversal_order (dirPath filePath : string)
    (files : list string) (proposals : Proposals) (w : World) :
  flagsOk dirPath filePath →
  findMarkdownFiles dirPath = (files, None) →
  files ≠ [] →
  mapM document files = Some proposals →
  Create sys filePath = None →
  fileText filePath (main dirPath filePath w)
  = Some ("{" +:+ nl +:+ concatAll (members proposals) +:+ "}" +:+ nl)
  ∧ length (members proposals) = length files
  ∧ ∀ n f, files !! n = Some f →
      ∃ kep text,
        document f = Some kep
        ∧ text = written (λ out, printProposal out (Z.of_nat (length files))
                                   (Z.of_nat n) kep)
        ∧ members proposals !! n = Some text
        ∧ keyOf text = Some (identifier kep).
Proof.
  intros Hflags Hfind Hne Hdocs Hcreate.
  rewrite (main_success _ _ files proposals) by done.
  assert (length proposals = length files) as Hlen
    by (symmetry; by apply length_mapM in Hdocs).
  split; [|split].
  - unfold fileText. cbn [snd disk]. by rewrite lookup_insert_eq.
  - by rewrite length_members.
  - intros n f Hn.
    destruct (documents_lookup _ _ _ _ Hdocs Hn) as (kep & Hdoc & Hkep).
    exists kep. eexists. split; [done|]. split; [reflexivity|].
    rewrite <- Hlen. split; [by apply members_lookup|].
    by rewrite written_printProposal, keyOf_memberText.
Qed.

(** C7.  Two files of a run whose proposals agree on owning SIG and title
    are both kept: the collection holds each proposal at the position of
    its file, the run ends with status 0 and writes nothing on the
    standard error, and the object has one member per file, the two
    members standing at their own positions under the same key. *)
Theorem duplicate_identifiers_kept (dirPath filePath : string)
    (files : list string) (proposals : Proposals) (w : World)
    (m n : nat) (fm fn : string) (km kn : Proposal) :
  flagsOk dirPath filePath →
  findMarkdownFiles dirPath = (files, None) →
  mapM document files = Some proposals →
  Create sys filePath = None →
  m ≠ n →
  files !! m = Some fm → document fm = Some km →
  files !! n = Some fn → document fn = Some kn →
  OwningSIG km = OwningSIG kn →
  Title km = Title kn →
  let run := main dirPath filePath w in
  let member (i : nat) (kep : Proposal) :=
    written (λ out, printProposal out (Z.of_nat (length files))
                      (Z.of_nat i) kep) in
  (parseFiles files w).1 = Return (inr proposals)
  ∧ proposals !! m = Some km ∧ proposals !! n = Some kn
  ∧ status run = 0 ∧ stderr run.2 = stderr w
  ∧ fileText filePath run
    = Some ("{" +:+ nl +:+ concatAll (members proposals) +:+ "}" +:+ nl)
  ∧ length (members proposals) = length files
  ∧ members proposals !! m = Some (member m km)
  ∧ members proposals !! n = Some (member n kn)
  ∧ keyOf (member m km) = Some (identifier km)
  ∧ keyOf (member n kn) = Some (identifier km).
Proof.
  intros Hflags Hfind Hdocs Hcreate Hmn Hfm Hkm Hfn Hkn Hsig Htitle run member.
  assert (files ≠ []) as Hne by (intros ->; done).
  assert (length proposals = length files) as Hlen
    by (symmetry; by apply length_mapM in Hdocs).
  destruct (documents_lookup _ _ _ _ Hdocs Hfm) as (km' & Hkm' & Hpm).
  destruct (documents_lookup _ _ _ _ Hdocs Hfn) as (kn' & Hkn' & Hpn).
  simplify_eq.
  subst run member. cbv beta.
  rewrite (main_success _ _ files proposals) by done.
  unfold parseFiles. rewrite (parseLoop_ok files proposals) by done.
  unfold status, fileText. cbn [fst snd stderr disk app].
  rewrite lookup_insert_eq, length_members, <- Hlen.
  rewrite !(members_lookup proposals _ _) by done.
  rewrite !written_printProposal, !keyOf_memberText.
  unfold identifier. rewrite Hsig, Htitle. done.
Qed.

(** ** Quoted fields *)

(** A plain text between quotes is a string literal that reads back as the
    text: the quoted fields are right when they need no escaping. *)
Lemma plain_field_reads_back (v : string) :
  plainText v → json.Unquote (dq +:+ v +:+ dq) = Some v.
Proof.
  intros Hv. unfold json.Unquote.
  change (dq +:+ ?t) with (String "034" t).
  change (bytes_of_string (String "034" ?t)) with (34 :: bytes_of_string t).
  rewrite bytes_of_string_app.
  change (bytes_of_string dq) with [34].
  rewrite stringBody_plain by (rewrite ?length_app; simpl; (done || lia)).
  by rewrite string_of_bytes_of_string.
Qed.

(** X13.  The file [printJSONOutput] writes for a collection whose quoted
    fields are plain is valid JSON, whatever the number of proposals, the
    sequence fields and the bodies. *)
Lemma plain_collection_valid (filePath : string) (proposals : Proposals)
    (w : World) :
  Create sys filePath = None →
  Forall scalarsPlain proposals →
  ∃ text,
    fileText filePath (printJSONOutput filePath proposals w) = Some text
    ∧ json.Valid text = true.
Proof.
  intros Hcreate Hplain. exists (objectText proposals).
  rewrite printJSONOutput_run by done. unfold fileText. cbn [snd disk].
  rewrite lookup_insert_eq. split; [done|]. by apply objectText_valid.
Qed.

(** ** Sequence fields *)

(** C6, amended.  Every member holds the six sequence fields, each with
    the text [json.Marshal] gives for the slice: an array of the encoded
    elements for a slice that is not nil, so [[]] for an empty one, and
    [null] for a nil slice.  Either text is valid JSON, as is every encoded
    string. *)
Theorem sequence_fields_marshalled (kep : Proposal) (total n : nat) :
  written (λ out, printProposal out (Z.of_nat total) (Z.of_nat n) kep)
  = tab +:+ dq +:+ identifier kep +:+ dq +:+ ": {" +:+ nl
    +:+ quotedLine "title" (Title kep)
    +:+ quotedLine "owning-sig" (OwningSIG kep)
    +:+ jsonLine "participating-sigs" (marshal (ParticipatingSIGs kep))
    +:+ jsonLine "reviewers" (marshal (Reviewers kep))
    +:+ jsonLine "authors" (marshal (Authors kep))
    +:+ quotedLine "editor" (Editor kep)
    +:+ quotedLine "creation-date" (CreationDate kep)
    +:+ quotedLine "last-updated" (LastUpdated kep)
    +:+ quotedLine "status" (Status kep)
    +:+ jsonLine "see-also" (marshal (SeeAlso kep))
    +:+ jsonLine "replaces" (marshal (Replaces kep))
    +:+ jsonLine "superseded-by" (marshal (SupersededBy kep))
    +:+ lastLine "markdown" (json.MarshalString (Contents kep))
    +:+ tab +:+ (if (S n <? total)%nat then "}," else "}") +:+ nl
  ∧ (∀ l, marshal (Some l)
          = "[" +:+ json.joinComma (map json.MarshalString l) +:+ "]")
  ∧ marshal (Some []) = "[]"
  ∧ marshal None = "null"
  ∧ (∀ a, json.Valid (marshal a) = true)
  ∧ (∀ s, json.Valid (json.MarshalString s) = true).
Proof.
  split; [|repeat split; auto using MarshalStrings_valid, MarshalString_valid].
  rewrite written_printProposal. unfold memberText, memberFields, marshal.
  by rewrite !append_assoc.
Qed.

(** * Further properties *)

(** ** The walk when something fails *)

Lemma walk_visited (n : Node) :
  ∀ (path : string) (files : list string),
    filepath.walk Join visit path n files
    = (files ++ (List.filter (λ pn, eligible pn.2) (visited Join path n).1).*1,
       (visited Join path n).2).
Proof.
  induction n as [name|name entries IH|name err|name err] using Node_ind';
    intros path files.
  - cbn [filepath.walk visited fst snd]. rewrite visit_file. simpl.
    by destruct (eligible name).
  - cbn [filepath.walk visited visit IsDir].
    revert files.
    induction entries as [|e entries IHentries]; intros files.
    + cbn. by rewrite app_nil_r.
    + cbn [filepath.eachEntry].
      apply Forall_cons in IH as [He IH].
      rewrite He.
      destruct (visited Join (Join path (nodeName e)) e) as [found [err|]];
        [done|].
      cbn [fst snd]. rewrite (IHentries IH).
      match goal with
      | |- context [let '(_, _) := ?x in _] => destruct x as [found' err']
      end.
      cbn [fst snd]. by rewrite List.filter_app, fmap_app, app_assoc.
  - cbn. by rewrite app_nil_r.
  - cbn. by rewrite app_nil_r.
Qed.

(** What the walk reaches is a prefix of the files below the node, and all
    of them exactly when nothing fails. *)
Lemma visited_treePaths (n : Node) :
  ∀ path,
    (visited Join path n).1 `prefix_of` treePaths Join path n
    ∧ ((visited Join path n).2 = None →
       (visited Join path n).1 = treePaths Join path n)
    ∧ ((visited Join path n).2 = None ↔ treeOk n = true).
Proof.
  induction n as [name|name entries IH|name err|name err] using Node_ind';
    intros path; try (by repeat split; [apply prefix_nil | done..]);
    [by repeat split|].
  cbn [visited treePaths treeOk].
  induction entries as [|e entries IHentries]; [by repeat split|].
  apply Forall_cons in IH as [He IH].
  destruct (He (Join path (nodeName e))) as (Hpre & Hall & Hok).
  destruct (IHentries IH) as (Hpre' & Hall' & Hok').
  cbn [flat_map forallb].
  destruct (visited Join (Join path (nodeName e)) e) as [found [err|]];
    cbn [fst snd] in *.
  - split; [by apply prefix_app_r|]. split; [done|].
    split; [done|]. intros [Hfalse _]%andb_prop. by apply Hok in Hfalse.
  - rewrite (Hall eq_refl) in *.
    match goal with
    | |- context [let '(_, _) := ?x in _] => destruct x as [found' err']
    end.
    cbn [fst snd] in *. split; [by apply prefix_app|].
    split; [intros Herr; by rewrite (Hall' Herr)|].
    rewrite andb_true_iff, <- Hok'. split; [|by intros [_ Herr]].
    intros Herr. split; [by apply Hok | done].
Qed.

(** X1.  Whatever the tree, file discovery returns the eligible paths the
    walk reaches before the first failure, in the order of the walk,
    together with that failure: what the walk reaches is a prefix of the
    files below the root, all of them exactly when no [lstat] and no
    directory listing fails, so nothing that comes after a failing name or
    an unreadable directory is found. *)
Theorem findMarkdownFiles_until_failure (dirPath : string) :
  let reached := visited Join dirPath (Tree sys dirPath) in
  findMarkdownFiles dirPath
  = ((List.filter (λ pn, eligible pn.2) reached.1).*1, reached.2)
  ∧ reached.1 `prefix_of` treePaths Join dirPath (Tree sys dirPath)
  ∧ (reached.2 = None ↔ treeOk (Tree sys dirPath) = true).
Proof.
  cbv zeta. unfold findMarkdownFiles, filepath.Walk. rewrite walk_visited.
  destruct (visited_treePaths (Tree sys dirPath) dirPath) as (? & _ & ?).
  done.
Qed.

(** X2.  When the walk fails, [main] stops before any file is opened: it
    exits with status 1, the message on the standard error carries the
    error of the walk, nothing is printed on the standard output and the
    disk is left as it was, even when documents were found before the
    failure. *)
Theorem walk_failure_exit (dirPath filePath : string) (e : error)
    (w : World) :
  flagsOk dirPath filePath →
  (visited Join dirPath (Tree sys dirPath)).2 = Some e →
  main dirPath filePath w
  = (Exit 1,
     complain ("unable to find markdown files: " +:+ errors.Error e +:+ nl) w).
Proof.
  intros Hflags Hfail. main_start Hflags.
  unfold findMarkdownFiles, filepath.Walk. rewrite walk_visited, Hfail.
  reflexivity.
Qed.

(** ** The checks at the head of [main] *)

(** X3.  When a flag does not pass its check, [main] exits with status 1
    after one message and touches nothing else.  The checks run in the
    order directory given, directory exists, output given; the message for
    a missing directory goes to the standard output and has no newline,
    the two others go to the standard error. *)
Theorem flag_checks_exit (dirPath filePath : string) (w : World) :
  ¬ flagsOk dirPath filePath →
  main dirPath filePath w
  = (Exit 1,
     if (String.length dirPath =? 0)%nat then
       complain ("please specify the root directory for KEPs using '--dir'"
                   +:+ nl) w
     else if StatNotExist sys dirPath then
       say ("directory does not exist : " +:+ dirPath) w
     else
       complain
         ("please specify the file path for the output json using '--output'"
            +:+ nl) w).
Proof.
  intros Hflags. unfold main.
  destruct (String.length dirPath =? 0)%nat eqn:Hdir; [reflexivity|].
  destruct (StatNotExist sys dirPath) eqn:Hstat.
  { unfold when, mbind, M_bind, bind, mret, M_ret, ret, exit, Printf, Fprintf.
    cbn [write]. unfold say. do 3 f_equal.
    change (Sprintf _ [Str dirPath])
      with ("directory does not exist : " +:+ dirPath +:+ EmptyString).
    by rewrite append_nil_r. }
  destruct (String.length filePath =? 0)%nat eqn:Hfile; [reflexivity|].
  exfalso. apply Hflags. apply Nat.eqb_neq in Hdir, Hfile. by repeat split.
Qed.

(** ** Failures after discovery *)

Lemma parseLoop_open_fail (pre post : list string) (f : string) (err : error) :
  ∀ (parsed acc : Proposals) (w : World),
    mapM document pre = Some parsed →
    Open sys f = inl err →
    parseLoop (pre ++ f :: post) acc w
    = (Return (inl (errors.New ("could not open file: "
                                  +:+ errors.Error err +:+ nl))),
       say (concatAll (map successLine pre)) w).
Proof.
  induction pre as [|g pre IH]; intros parsed acc w Hdocs Hopen.
  - cbn [app parseLoop]. rewrite Hopen. by rewrite say_nil.
  - rewrite mapM_Some in Hdocs.
    apply Forall2_cons_inv_l in Hdocs as (kep & rest & Hdoc & Hrest & ->).
    rewrite <- mapM_Some in Hrest.
    cbn [app parseLoop]. unfold document in Hdoc.
    destruct (Open sys g) as [|gfile]; [done|].
    destruct (Error (Parse gfile)); [done|]. simplify_eq.
    unfold mbind, M_bind, bind, Printf, Fprintf. cbn [write].
    fold (say (Sprintf (">>>> parsed file successfully: %s" +:+ nl) [Str g]) w).
    rewrite (IH rest) by done. by rewrite say_say.
Qed.

(** X4.  When the files before [f] parse and [f] cannot be opened, [main]
    stops there: it exits with status 1, the message on the standard error
    quotes the error of [os.Open] (which names the file, as the error of
    the operating system does), the progress lines are those of the files
    before [f], no later file is opened and the disk is left as it was. *)
Theorem open_error_aborts (dirPath filePath f : string)
    (pre post : list string) (parsed : Proposals) (err : error) (w : World) :
  flagsOk dirPath filePath →
  findMarkdownFiles dirPath = (pre ++ f :: post, None) →
  mapM document pre = Some parsed →
  Open sys f = inl err →
  main dirPath filePath w
  = (Exit 1,
     {| stdout := stdout w +:+ concatAll (map successLine pre);
        stderr := stderr w +:+ "error parsing files: "
                    +:+ Quote ("could not open file: "
                                 +:+ errors.Error err +:+ nl)
                    +:+ nl;
        disk := disk w |}).
Proof.
  intros Hflags Hfind Hpre Hopen. main_start Hflags. rewrite Hfind.
  replace (length (pre ++ f :: post) =? 0)%nat with false
    by (symmetry; apply Nat.eqb_neq; rewrite length_app; simpl; lia).
  unfold parseFiles.
  rewrite (parseLoop_open_fail pre post f err parsed) by done.
  reflexivity.
Qed.

Lemma printJSONOutput_create_fail (filePath : string) (proposals : Proposals)
    (err : error) (w : World) :
  Create sys filePath = Some err →
  printJSONOutput filePath proposals w
  = (Return (Some err), say ("Output file: " +:+ filePath +:+ nl) w).
Proof. intros Hcreate. unfold printJSONOutput. by rewrite Hcreate. Qed.

(** X5.  When every file parses and the output file cannot be created,
    [main] exits with status 1 and reports the error of [os.Create] on the
    standard error; the progress lines and the name of the output file
    were printed, the count of KEPs was not, and the disk is left as it
    was. *)
Theorem create_error_exit (dirPath filePath : string) (files : list string)
    (proposals : Proposals) (err : error) (w : World) :
  flagsOk dirPath filePath →
  findMarkdownFiles dirPath = (files, None) →
  files ≠ [] →
  mapM document files = Some proposals →
  Create sys filePath = Some err →
  main dirPath filePath w
  = (Exit 1,
     {| stdout := stdout w +:+ concatAll (map successLine files)
                    +:+ ("Output file: " +:+ filePath +:+ nl);
        stderr := stderr w +:+ "could not open file: "
                    +:+ errors.Error err +:+ nl;
        disk := disk w |}).
Proof.
  intros Hflags Hfind Hne Hdocs Hcreate. main_start Hflags. rewrite Hfind.
  replace (length files =? 0)%nat with false
    by (symmetry; apply Nat.eqb_neq; by destruct files).
  unfold parseFiles. rewrite (parseLoop_ok files proposals) by done.
  rewrite (printJSONOutput_create_fail _ _ err) by done.
  cbn [app say stdout stderr disk]. by rewrite !append_assoc.
Qed.

(** ** The whole run *)

(** X6.  A run in which every check passes, every file found parses and
    the output file can be created ends with status 0.  It prints one
    progress line per file, the name of the output file and the number of
    proposals, writes nothing on the standard error, and replaces the
    content of the output file, whatever it held, by the object of the
    proposals; no other file changes. *)
Theorem successful_run (dirPath filePath : string) (files : list string)
    (proposals : Proposals) (w : World) :
  flagsOk dirPath filePath →
  findMarkdownFiles dirPath = (files, None) →
  files ≠ [] →
  mapM document files = Some proposals →
  Create sys filePath = None →
  let run := main dirPath filePath w in
  status run = 0
  ∧ stdout run.2
    = stdout w +:+ concatAll (map successLine files)
        +:+ ("Output file: " +:+ filePath +:+ nl)
        +:+ ("Total KEPs: " +:+ pretty (Z.of_nat (length files)) +:+ nl)
  ∧ stderr run.2 = stderr w
  ∧ disk run.2 !! filePath = Some (objectText proposals)
  ∧ ∀ path, path ≠ filePath → disk run.2 !! path = disk w !! path.
Proof.
  intros Hflags Hfind Hne Hdocs Hcreate run. subst run.
  rewrite (main_success _ _ files proposals) by done.
  unfold status. cbn [fst snd stdout stderr disk].
  rewrite (length_mapM _ _ _ Hdocs), lookup_insert_eq.
  repeat split. intros path Hpath. by rewrite lookup_insert_ne.
Qed.



(** ** [hash] *)

Lemma length_bytes_of_string (s : string) :
  length (bytes_of_string s) = String.length s.
Proof.
  unfold bytes_of_string. rewrite length_map.
  induction s as [|c s IH]; [reflexivity | simpl; by rewrite IH].
Qed.

Lemma le_bytes_spec (n : nat) (x : Z) :
  length (md5.le_bytes n x) = n ∧ Forall isByte (md5.le_bytes n x).
Proof.
  unfold md5.le_bytes. rewrite length_map, length_seq. split; [done|].
  apply Forall_map, Forall_forall. intros k _. apply Z.mod_pos_bound. lia.
Qed.

Lemma Sum_spec (data : list Z) :
  length (md5.Sum data) = 16%nat ∧ Forall isByte (md5.Sum data).
Proof.
  unfold md5.Sum. cbv zeta. rewrite !length_app, !Forall_app.
  repeat match goal with
         | |- context [md5.le_bytes 4 ?x] =>
             let H := fresh in
             destruct (le_bytes_spec 4 x) as [H ?]; rewrite !H; clear H
         end.
  done.
Qed.

Lemma hexdigit_lower (n : Z) :
  0 ≤ n < 16 → ∃ h, bytes_of_string (hexdigit n) = [h] ∧ lowerHex h.
Proof.
  intros Hn.
  assert (n ∈ [0; 1; 2; 3; 4; 5; 6; 7; 8; 9; 10; 11; 12; 13; 14; 15])
    as Hcases by (rewrite !elem_of_cons; lia).
  unfold lowerHex.
  repeat (apply elem_of_cons in Hcases as [->|Hcases];
          [eexists; split; [vm_compute; reflexivity | lia]|]).
  by apply elem_of_nil in Hcases.
Qed.

Lemma hexEncode_spec (l : list Z) :
  Forall isByte l →
  length (bytes_of_string (hexEncode l)) = (2 * length l)%nat
  ∧ Forall lowerHex (bytes_of_string (hexEncode l)).
Proof.
  induction 1 as [|b l [Hb0 Hb1] _ [IHlen IHhex]]; [by split|].
  cbn [hexEncode foldr]. fold (hexEncode l). unfold hex_byte.
  destruct (hexdigit_lower (b / 16)) as (h1 & Hh1 & Hlow1).
  { split; [apply Z.div_pos | apply Z.div_lt_upper_bound]; lia. }
  destruct (hexdigit_lower (b mod 16)) as (h2 & Hh2 & Hlow2).
  { apply Z.mod_pos_bound. lia. }
  rewrite !bytes_of_string_app, Hh1, Hh2. cbn [app length].
  split; [lia | by do 2 (constructor; [done|])].
Qed.

(** X8.  Whatever the text, [hash] returns thirty-two lowercase
    hexadecimal digits, so a key never holds a character that would need
    escaping in the object. *)
Theorem hash_hex32 (s : string) :
  String.length (hash s) = 32%nat
  ∧ Forall lowerHex (bytes_of_string (hash s))
  ∧ plainText (hash s).
Proof.
  assert (hash s = hexEncode (md5.Sum (bytes_of_string s))) as ->
    by (unfold hash; simpl; apply append_nil_r).
  destruct (Sum_spec (bytes_of_string s)) as [Hlen Hbytes].
  destruct (hexEncode_spec _ Hbytes) as [Hlen' Hhex].
  rewrite <- length_bytes_of_string, Hlen', Hlen.
  split; [done|]. split; [done|]. apply hexEncode_plain.
Qed.

(** X9.  Two records get the same key when the text of owning SIG, colon
    and title is the same, although the fields differ: a colon that
    moves from the owning SIG to the title changes neither the text that is
    hashed nor the key. *)
Theorem colon_shift_same_key (k1 k2 : Proposal) (a b c : string)
    (total n total' n' : nat) :
  OwningSIG k1 = a +:+ ":" +:+ b → Title k1 = c →
  OwningSIG k2 = a → Title k2 = b +:+ ":" +:+ c →
  hash (OwningSIG k1 +:+ ":" +:+ Title k1)
  = hash (OwningSIG k2 +:+ ":" +:+ Title k2)
  ∧ keyOf (written (λ out, printProposal out (Z.of_nat total) (Z.of_nat n) k1))
    = keyOf (written (λ out, printProposal out (Z.of_nat total')
                               (Z.of_nat n') k2)).
Proof.
  intros Hs1 Ht1 Hs2 Ht2.
  assert (OwningSIG k1 +:+ ":" +:+ Title k1
          = OwningSIG k2 +:+ ":" +:+ Title k2) as Htext
    by (rewrite Hs1, Ht1, Hs2, Ht2; by rewrite !append_assoc).
  split; [by rewrite Htext|].
  rewrite !written_printProposal, !keyOf_memberText.
  unfold identifier. by rewrite Htext.
Qed.

(** ** [ignore] *)

(** X10.  A name is ignored exactly when it is one of the seven names of
    the ignore-list or does not end with the two characters [md]; the
    comparison is exact, byte for byte. *)
Theorem ignore_spec (name : string) :
  ignore name = true
  ↔ name ∈ ignoreList ∨ ¬ ∃ stem, name = stem +:+ "md".
Proof.
  rewrite ignore_eligible. unfold eligible.
  rewrite negb_true_iff, andb_false_iff, negb_false_iff.
  rewrite bool_decide_eq_true, <- HasSuffix_spec.
  split; intros [Hin|Hsuffix]; [by left | right | by left | right].
  - by rewrite Hsuffix.
  - by apply not_true_is_false.
Qed.

(** ** Reading the values back *)

Lemma body_plain (b : Z) (fuel : nat) (text v rest : list Z) :
  json.plain b = true →
  json.stringBody fuel (text ++ 34 :: rest) = Some (v, rest) →
  json.stringBody (S fuel) (b :: text ++ 34 :: rest) = Some (b :: v, rest).
Proof.
  intros Hb Hv. cbn [json.stringBody]. unfold json.plain in Hb.
  destruct (Z.eqb_spec b 34); [by rewrite !andb_false_r in Hb|].
  destruct (Z.eqb_spec b 92); [by rewrite !andb_false_r in Hb|].
  destruct (Z.ltb_spec b 0x20);
    [destruct (Z.leb_spec 0x20 b); [lia | done] |].
  by rewrite Hv.
Qed.

Lemma body_plains (l : list Z) (fuel : nat) (text v rest : list Z) :
  Forall (λ b, json.plain b = true) l →
  json.stringBody fuel (text ++ 34 :: rest) = Some (v, rest) →
  json.stringBody (length l + fuel) ((l ++ text) ++ 34 :: rest)
  = Some (l ++ v, rest).
Proof.
  intros Hl Hv. induction Hl as [|b l Hb _ IH]; [done|].
  cbn [length Nat.add app]. by apply (body_plain b _ (l ++ text)).
Qed.

(** The two-character escapes and the bytes they stand for. *)
Lemma body_escape (e d : Z) (fuel : nat) (text v rest : list Z) :
  (e, d) ∈ [(34, 34); (92, 92); (110, 10); (114, 13); (116, 9)] →
  json.stringBody fuel (text ++ 34 :: rest) = Some (v, rest) →
  json.stringBody (S fuel) (92 :: e :: text ++ 34 :: rest)
  = Some (d :: v, rest).
Proof.
  intros He Hv.
  repeat (apply elem_of_cons in He as [[= -> ->]|He];
          [cbn [json.stringBody]; simpl; by rewrite Hv|]).
  by apply elem_of_nil in He.
Qed.

Lemma body_u (h1 h2 h3 h4 c : Z) (fuel : nat) (text v rest : list Z) :
  json.hex4 [h1; h2; h3; h4] = Some (c, []) →
  utf8.between 0xD800 0xDBFF c = false →
  json.stringBody fuel (text ++ 34 :: rest) = Some (v, rest) →
  json.stringBody (S fuel)
    (92 :: 117 :: h1 :: h2 :: h3 :: h4 :: text ++ 34 :: rest)
  = Some (utf8.EncodeRune c ++ v, rest).
Proof.
  intros Hhex Hc Hv. cbn [json.stringBody]. simpl (_ =? _). cbv iota.
  assert (json.hex4 (h1 :: h2 :: h3 :: h4 :: text ++ 34 :: rest)
          = Some (c, text ++ 34 :: rest)) as ->.
  { unfold json.hex4 in *. repeat case_match; by simplify_eq. }
  cbn [mbind option_bind]. by rewrite Hc, Hv.
Qed.

(** The escape written for an ASCII byte reads back as that byte. *)
Lemma body_ascii_escape (b : Z) (fuel : nat) (text v rest : list Z) :
  0 ≤ b < 0x80 →
  json.stringBody fuel (text ++ 34 :: rest) = Some (v, rest) →
  json.stringBody (S fuel)
    ((bytes_of_string (json.escape b) ++ text) ++ 34 :: rest)
  = Some (b :: v, rest).
Proof.
  intros Hb Hv.
  destruct (Z.eqb_spec b 92) as [->|];
    [apply (body_escape 92 92); [repeat constructor | done]|].
  destruct (Z.eqb_spec b 34) as [->|];
    [apply (body_escape 34 34); [repeat constructor | done]|].
  destruct (Z.eqb_spec b 10) as [->|];
    [apply (body_escape 110 10); [repeat constructor | done]|].
  destruct (Z.eqb_spec b 13) as [->|];
    [apply (body_escape 114 13); [repeat constructor | done]|].
  destruct (Z.eqb_spec b 9) as [->|];
    [apply (body_escape 116 9); [repeat constructor | done]|].
  unfold json.escape.
  repeat match goal with
         | |- context [b =? ?k] => destruct (Z.eqb_spec b k); [lia|]
         end.
  cbn [orb].
  assert (0 ≤ b / 16 < 16) as Hq
    by (split; [apply Z.div_pos | apply Z.div_lt_upper_bound]; lia).
  assert (0 ≤ b mod 16 < 16) as Hr by (apply Z.mod_pos_bound; lia).
  destruct (hexdigit_hexval (b / 16)) as (h1 & Hh1 & Hv1); [done|].
  destruct (hexdigit_hexval (b mod 16)) as (h2 & Hh2 & Hv2); [done|].
  rewrite !bytes_of_string_app, Hh1, Hh2.
  assert (b / 16 * 16 + b mod 16 = b) as Hdm
    by (pose proof (Z.div_mod b 16); lia).
  replace (b :: v) with (utf8.EncodeRune (b / 16 * 16 + b mod 16) ++ v).
  - apply (body_u 48 48 h1 h2); [|apply andb_false_intro1, Z.leb_gt; lia|done].
    unfold json.hex4. rewrite Hv1, Hv2. simpl; repeat f_equal; lia.
  - rewrite Hdm. unfold utf8.EncodeRune.
    by destruct (Z.ltb_spec b 0x80); [|lia].
Qed.

Lemma lead_cases (b : Z) (n : nat) (lo hi : Z) :
  utf8.lead b = Some (n, lo, hi) →
  0x80 ≤ lo ∧ hi ≤ 0xBF
  ∧ ((n = 2%nat ∧ 0xC2 ≤ b ≤ 0xDF)
     ∨ (n = 3%nat ∧ 0xE0 ≤ b ≤ 0xEF)
     ∨ (n = 4%nat ∧ 0xF0 ≤ b ≤ 0xF4 ∧ (b = 0xF0 → lo = 0x90))).
Proof.
  unfold utf8.lead.
  repeat case_match; intros; simplify_eq;
    repeat match goal with
      | H : utf8.between _ _ _ = true |- _ => apply between_true in H
      | H : (_ =? _) = true |- _ => apply Z.eqb_eq in H
      | H : (_ =? _) = false |- _ => apply Z.eqb_neq in H
      end;
    lia.
Qed.

(** The sequence decoded as U+2028 or U+2029 is the one [EncodeRune] writes
    for that rune. *)
Lemma DecodeRune_separator (b : Z) (t : list Z) (c : Z) (size : nat) :
  0x80 ≤ b →
  utf8.DecodeRune (b :: t) = (c, size) →
  c = 0x2028 ∨ c = 0x2029 →
  take size (b :: t) = utf8.EncodeRune c.
Proof.
  intros Hb. unfold utf8.DecodeRune.
  destruct (Z.ltb_spec b 0x80); [lia|].
  destruct (utf8.lead b) as [[[n lo] hi]|] eqn:Hlead;
    [|intros [= <- <-] [|]; done].
  apply lead_cases in Hlead as (Hlo & Hhi & Hn).
  unfold utf8.cont.
  destruct Hn as [[-> Hrange] | [[-> Hrange] | (-> & Hrange & Hf0)]];
    repeat case_match; intros [= <- <-] Hc; try (by destruct Hc);
    repeat match goal with
      | H : _ && _ = true |- _ => apply andb_prop in H as [? ?]
      | H : utf8.between _ _ _ = true |- _ => apply between_true in H
      end;
    subst; destruct Hc as [Hc|Hc];
    first
      [ exfalso; Z.to_euclidean_division_equations; lia
      | match goal with
        | |- take 3 (?b :: ?s1 :: ?s2 :: _) = _ =>
            assert (b = 0xE2 ∧ s1 = 0x80 ∧ (s2 = 0xA8 ∨ s2 = 0xA9))
              as (-> & -> & [-> | ->])
              by (Z.to_euclidean_division_equations; lia);
            first [reflexivity | by exfalso]
        end ].
Qed.

Lemma body_encodeLoop (fuel : nat) :
  ∀ (s : list Z) (F : nat) (rest : list Z),
    (length s ≤ fuel)%nat →
    Forall isByte s →
    (length (bytes_of_string (json.encodeLoop fuel s)) < F)%nat →
    json.stringBody F (bytes_of_string (json.encodeLoop fuel s) ++ 34 :: rest)
    = Some (readback.sanitizeLoop fuel s, rest).
Proof.
  induction fuel as [|fuel IH]; intros s F rest Hlen Hbytes HF.
  - destruct s; [|simpl in Hlen; lia]. destruct F; [simpl in HF; lia | done].
  - destruct s as [|b t]; [destruct F; [simpl in HF; lia | done]|].
    apply Forall_cons in Hbytes as [[Hb0 Hb1] Ht]. simpl in Hlen.
    cbn [json.encodeLoop readback.sanitizeLoop] in *.
    destruct (Z.ltb_spec b 0x80) as [Hascii|Hhigh].
    + rewrite bytes_of_string_app, length_app in *.
      destruct F as [|F]; [lia|].
      destruct (json.htmlSafe b) eqn:Hsafe.
      * rewrite bytes_of_string_chr in * by done. simpl in HF.
        apply (body_plain b); [by apply htmlSafe_plain|].
        apply IH; [lia | done | lia].
      * apply body_ascii_escape; [lia|].
        apply IH; [lia | done |].
        assert (0 < length (bytes_of_string (json.escape b)))%nat;
          [|lia].
        unfold json.escape. rewrite bytes_of_string_app, length_app.
        simpl. lia.
    + destruct (utf8.DecodeRune (b :: t)) as [c size] eqn:Hdec.
      pose proof (length_DecodeRune b t c size Hhigh Hdec) as Hsize.
      assert (length (drop size (b :: t)) ≤ fuel)%nat as Hdrop
        by (rewrite length_drop; simpl in *; lia).
      assert (Forall isByte (drop size (b :: t))) as Hrest
        by (apply Forall_drop; by repeat constructor).
      destruct ((c =? utf8.RuneError) && (size =? 1)%nat) eqn:Hinvalid;
        [|destruct ((c =? 8232) || (c =? 8233)) eqn:Hsep].
      * rewrite !bytes_of_string_app, !length_app in *.
        destruct F as [|F]; [lia|].
        apply (body_u 102 102 102 100 0xFFFD); [reflexivity | reflexivity |].
        apply IH; [done | done | simpl in HF; lia].
      * rewrite (DecodeRune_separator b t c size Hhigh Hdec)
          by (apply orb_prop in Hsep as [?%Z.eqb_eq | ?%Z.eqb_eq]; auto).
        rewrite !bytes_of_string_app, !length_app in *.
        destruct F as [|F]; [lia|].
        apply orb_prop in Hsep as [->%Z.eqb_eq | ->%Z.eqb_eq].
        -- apply (body_u 50 48 50 56 0x2028); [reflexivity | reflexivity |].
           apply IH; [done | done | simpl in HF; lia].
        -- apply (body_u 50 48 50 57 0x2029); [reflexivity | reflexivity |].
           apply IH; [done | done | simpl in HF; lia].
      * destruct (DecodeRune_cases b t c size Hhigh Hdec)
          as [[-> ->]|(Hsize2 & _ & Hall)]; [done|].
        assert (Forall isByte (take size (b :: t))) as Htake
          by (apply Forall_take; by repeat constructor).
        rewrite bytes_of_string_app, length_app,
          bytes_of_string_of_bytes in * by done.
        replace F with (length (take size (b :: t))
                        + (F - length (take size (b :: t))))%nat by lia.
        apply body_plains; [by apply high_plain|].
        apply IH; [done | done | lia].
Qed.

Lemma sanitizeLoop_valid (fuel : nat) :
  ∀ s, (length s ≤ fuel)%nat →
       readback.validLoop fuel s = true →
       readback.sanitizeLoop fuel s = s.
Proof.
  induction fuel as [|fuel IH]; intros s Hlen Hvalid.
  - by destruct s; [|simpl in Hlen; lia].
  - destruct s as [|b t]; [done|]. simpl in Hlen.
    cbn [readback.validLoop readback.sanitizeLoop] in *.
    destruct (Z.ltb_spec b 0x80) as [Hascii|Hhigh].
    + rewrite IH by (done || lia). done.
    + destruct (utf8.DecodeRune (b :: t)) as [c size] eqn:Hdec.
      pose proof (length_DecodeRune b t c size Hhigh Hdec) as Hsize.
      destruct ((c =? utf8.RuneError) && (size =? 1)%nat); [done|].
      rewrite IH by (rewrite ?length_drop; simpl in *; (done || lia)).
      apply take_drop.
Qed.

(** X11.  The value of the [markdown] member is a string literal that
    reads back as the body of the record, with every byte that is not part
    of a valid UTF-8 sequence replaced by U+FFFD: a body that is valid
    UTF-8 reads back as it is, quotes, backslashes, control characters and
    line separators included. *)
Theorem markdown_reads_back (kep : Proposal) (total n : nat) :
  (∃ head,
     written (λ out, printProposal out (Z.of_nat total) (Z.of_nat n) kep)
     = head +:+ lastLine "markdown" (json.MarshalString (Contents kep))
         +:+ tab +:+ (if (S n <? total)%nat then "}," else "}") +:+ nl)
  ∧ json.Unquote (json.MarshalString (Contents kep))
    = Some (readback.sanitize (Contents kep))
  ∧ (readback.ValidString (Contents kep) = true →
     json.Unquote (json.MarshalString (Contents kep)) = Some (Contents kep)).
Proof.
  assert (json.Unquote (json.MarshalString (Contents kep))
          = Some (readback.sanitize (Contents kep))) as Hread.
  { unfold json.Unquote, readback.sanitize. rewrite bytes_MarshalString.
    cbv zeta.
    rewrite body_encodeLoop;
      [done | done | apply isByte_bytes_of_string
      | rewrite length_app; simpl; lia]. }
  split; [|split; [done|]].
  - rewrite written_printProposal. unfold memberText, memberFields.
    exists (tab +:+ dq +:+ identifier kep +:+ dq +:+ ": {" +:+ nl
            +:+ quotedLine "title" (Title kep)
            +:+ quotedLine "owning-sig" (OwningSIG kep)
            +:+ jsonLine "participating-sigs"
                  (json.MarshalStrings (ParticipatingSIGs kep))
            +:+ jsonLine "reviewers" (json.MarshalStrings (Reviewers kep))
            +:+ jsonLine "authors" (json.MarshalStrings (Authors kep))
            +:+ quotedLine "editor" (Editor kep)
            +:+ quotedLine "creation-date" (CreationDate kep)
            +:+ quotedLine "last-updated" (LastUpdated kep)
            +:+ quotedLine "status" (Status kep)
            +:+ jsonLine "see-also" (json.MarshalStrings (SeeAlso kep))
            +:+ jsonLine "replaces" (json.MarshalStrings (Replaces kep))
            +:+ jsonLine "superseded-by"
                  (json.MarshalStrings (SupersededBy kep))).
    by rewrite !append_assoc.
  - intros Hvalid. rewrite Hread. f_equal. unfold readback.sanitize.
    cbv zeta. rewrite sanitizeLoop_valid by done.
    apply string_of_bytes_of_string.
Qed.

Lemma body_MarshalString (x : string) (rest : list Z) :
  ∃ t, bytes_of_string (json.MarshalString x) ++ rest = 34 :: t
       ∧ json.stringBody (length t) t
         = Some (readback.sanitizeLoop (length (bytes_of_string x))
                   (bytes_of_string x), rest).
Proof.
  rewrite bytes_MarshalString.
  exists (bytes_of_string
            (json.encodeLoop (length (bytes_of_string x)) (bytes_of_string x))
          ++ 34 :: rest).
  split; [cbn [app]; by rewrite <- app_assoc|].
  apply body_encodeLoop;
    [done | apply isByte_bytes_of_string | rewrite length_app; simpl; lia].
Qed.

Lemma readStrings_eq (fuel : nat) (s : list Z) :
  readback.readStrings (S fuel) s
  = match json.skipWs s with
    | 34 :: t =>
        '(v, r) ← json.stringBody (length t) t;
        match json.skipWs r with
        | 44 :: r' =>
            '(vs, r'') ← readback.readStrings fuel r'; Some (v :: vs, r'')
        | 93 :: r' => Some ([v], r')
        | _ => None
        end
    | _ => None
    end.
Proof. reflexivity. Qed.

Lemma readStrings_strings (l : list string) :
  ∀ (fuel : nat) (rest : list Z),
    l ≠ [] → (length l ≤ fuel)%nat →
    readback.readStrings fuel
      (bytes_of_string (json.joinComma (map json.MarshalString l))
         ++ 93 :: rest)
    = Some ((λ x, readback.sanitizeLoop (length (bytes_of_string x))
                    (bytes_of_string x)) <$> l, rest).
Proof.
  induction l as [|x l IH]; intros fuel rest Hne Hfuel; [done|].
  destruct fuel as [|fuel]; [simpl in Hfuel; lia|].
  rewrite readStrings_eq. destruct l as [|y l].
  - change (json.joinComma (map json.MarshalString [x]))
      with (json.MarshalString x).
    destruct (body_MarshalString x (93 :: rest)) as (t & -> & Hbody).
    change (json.skipWs (34 :: t)) with (34 :: t). cbv iota.
    by rewrite Hbody.
  - rewrite !map_cons, joinComma_cons, !bytes_of_string_app, <- !app_assoc.
    change (bytes_of_string "," ++ ?t) with (44 :: t).
    match goal with
    | |- context [bytes_of_string (json.MarshalString x) ++ ?r] =>
        destruct (body_MarshalString x r) as (t & -> & Hbody)
    end.
    change (json.skipWs (34 :: t)) with (34 :: t). cbv iota.
    rewrite Hbody. cbn [mbind option_bind].
    change (json.skipWs (44 :: ?r)) with (44 :: r). cbv iota.
    rewrite <- map_cons, IH by (done || simpl in *; lia).
    reflexivity.
Qed.

(** X12.  The text [marshal] returns reads back as the slice it was given:
    [null] as the nil slice, [[]] as the empty slice, and an array as the
    slice of its elements in order, each with its invalid UTF-8 bytes
    replaced by U+FFFD.  Nil and empty stay apart. *)
Theorem marshal_reads_back (a : option (list string)) :
  readback.UnmarshalStrings (marshal a)
  = Some (map readback.sanitize <$> a).
Proof.
  unfold marshal. destruct a as [[|x l]|]; [reflexivity | | reflexivity].
  unfold readback.UnmarshalStrings, json.MarshalStrings. cbv zeta.
  change ("[" +:+ ?t) with (String "[" t).
  change (bytes_of_string (String "[" ?t)) with (91 :: bytes_of_string t).
  rewrite bytes_of_string_app.
  change (bytes_of_string "]") with [93].
  change (json.skipWs (91 :: ?t)) with (91 :: t). cbv iota.
  assert (∃ t, bytes_of_string
                 (json.joinComma (map json.MarshalString (x :: l))) ++ [93]
               = 34 :: t) as [t Ht].
  { destruct l; cbn [map json.joinComma];
      rewrite ?bytes_of_string_app, <- ?app_assoc;
      apply skipWs_MarshalString. }
  rewrite Ht. change (json.skipWs (34 :: t)) with (34 :: t). cbv iota.
  rewrite <- Ht. rewrite readStrings_strings; [|done|].
  - cbn [json.skipWs]. do 2 f_equal.
    rewrite <- list_fmap_compose. reflexivity.
  - rewrite length_app. cbn [length].
    pose proof (length_MarshalStrings (Some (x :: l))) as Hlen.
    unfold len, json.MarshalStrings in Hlen.
    change (default [] (Some (x :: l))) with (x :: l) in Hlen.
    rewrite !bytes_of_string_app, !length_app in Hlen.
    change (length (bytes_of_string "[")) with 1%nat in Hlen.
    change (length (bytes_of_string "]")) with 1%nat in Hlen.
    change (length (x :: l)) with (S (length l)) in Hlen. lia.
Qed.

(** ** The members a reader finds *)

Lemma readMembers_eq (fuel : nat) (s : list Z) :
  readback.readMembers (S fuel) s
  = match json.skipWs s with
    | 34 :: t =>
        '(k, r) ← json.stringBody (length t) t;
        match json.skipWs r with
        | 58 :: r' =>
            match json.value fuel r' with
            | Some (44 :: r'') =>
                '(ms, rest) ← readback.readMembers fuel r'';
                Some ((k, readback.trim (readback.span r' (44 :: r''))) :: ms,
                      rest)
            | Some (125 :: r'') =>
                Some ([(k, readback.trim (readback.span r' (125 :: r'')))],
                      json.skipWs r'')
            | _ => None
            end
        | _ => None
        end
    | _ => None
    end.
Proof. reflexivity. Qed.

(** The reader accepts what the recogniser accepts, and leaves the same
    input. *)
Lemma readMembers_members (fuel : nat) :
  ∀ s, snd <$> readback.readMembers fuel s = json.members fuel s.
Proof.
  induction fuel as [|fuel IH]; intros s; [reflexivity|].
  rewrite readMembers_eq, members_eq.
  destruct (json.skipWs s) as [|b t]; [reflexivity|].
  destruct (Z.eqb_spec b 34) as [->|Hb].
  2: { by destruct b as [|p|p]; try done;
         do 6 (destruct p as [p|p|]; try done). }
  destruct (json.stringBody (length t) t) as [[k r]|]; [|reflexivity].
  cbn [mbind option_bind].
  destruct (json.skipWs r) as [|c r']; [reflexivity|].
  destruct (Z.eqb_spec c 58) as [->|Hc].
  2: { by destruct c as [|p|p]; try done;
         do 6 (destruct p as [p|p|]; try done). }
  destruct (json.value fuel r') as [[|d r'']|]; [reflexivity| |reflexivity].
  destruct (Z.eqb_spec d 44) as [->|Hd44].
  { rewrite <- IH. by destruct (readback.readMembers fuel r'') as [[ms rest]|]. }
  destruct (Z.eqb_spec d 125) as [->|Hd125]; [reflexivity|].
  by destruct d as [|p|p]; try done;
    do 7 (destruct p as [p|p|]; try done).
Qed.

Lemma span_app (a rest : list Z) : readback.span (a ++ rest) rest = a.
Proof.
  unfold readback.span. apply take_app_length'. rewrite length_app. lia.
Qed.

Lemma trim_braces (x : list Z) :
  readback.trim (32 :: 123 :: x ++ [125]) = 123 :: x ++ [125].
Proof.
  unfold readback.trim.
  change (json.skipWs (32 :: 123 :: ?y)) with (123 :: y).
  rewrite app_comm_cons, reverse_snoc.
  change (json.skipWs (125 :: ?y)) with (125 :: y).
  by rewrite reverse_cons, reverse_involutive.
Qed.

Lemma trim_braces_nl (x : list Z) :
  readback.trim (32 :: 123 :: x ++ [125; 10]) = 123 :: x ++ [125].
Proof.
  unfold readback.trim.
  change (json.skipWs (32 :: 123 :: ?y)) with (123 :: y).
  change (x ++ [125; 10]) with (x ++ [125] ++ [10]).
  rewrite app_assoc, app_comm_cons, reverse_snoc.
  change (json.skipWs (10 :: ?y)) with (json.skipWs y).
  rewrite app_comm_cons, reverse_snoc.
  change (json.skipWs (125 :: ?y)) with (125 :: y).
  by rewrite reverse_cons, reverse_involutive.
Qed.

Lemma bytes_memberObject (kep : Proposal) :
  bytes_of_string (memberObject kep)
  = 123 :: (10 :: bytes_of_string (memberFields kep) ++ [9]) ++ [125].
Proof.
  unfold memberObject. rewrite !bytes_of_string_app. cbn [app].
  by rewrite <- app_assoc.
Qed.

(** One member: a plain name, a colon, and a value whose text is [A]. *)
Lemma readMembers_step (s V A r : list Z) (name : string) (fuel : nat) :
  json.skipWs s = 34 :: bytes_of_string name ++ 34 :: 58 :: V →
  plainText name →
  V = A ++ r →
  json.value fuel V = Some r →
  readback.readMembers (S fuel) s
  = match r with
    | 44 :: r' =>
        '(ms, rest) ← readback.readMembers fuel r';
        Some ((bytes_of_string name, readback.trim A) :: ms, rest)
    | 125 :: r' =>
        Some ([(bytes_of_string name, readback.trim A)], json.skipWs r')
    | _ => None
    end.
Proof.
  intros Hs Hname HA HV. rewrite readMembers_eq, Hs.
  rewrite stringBody_plain by (rewrite ?length_app; simpl; (done || lia)).
  cbn [mbind option_bind].
  change (json.skipWs (58 :: V)) with (58 :: V). cbv iota.
  rewrite HV. subst V. destruct r as [|d r0]; [reflexivity|].
  destruct (Z.eqb_spec d 44) as [->|Hd44]; [by rewrite span_app|].
  destruct (Z.eqb_spec d 125) as [->|Hd125]; [by rewrite span_app|].
  by destruct d as [|p|p]; try done;
    do 7 (destruct p as [p|p|]; try done).
Qed.

(** The member of a record with plain fields that is not the last: the
    reader takes its key and its object, and goes on with the next. *)
Lemma readMembers_inner (total n : nat) (kep : Proposal) (rest : list Z)
    (fuel : nat) :
  scalarsPlain kep → (seqTotal kep < fuel)%nat →
  (S n <? total)%nat = true →
  readback.readMembers (16 + fuel)
    (bytes_of_string (memberText total n kep) ++ rest)
  = '(ms, r) ← readback.readMembers (15 + fuel) rest;
    Some ((bytes_of_string (identifier kep),
           bytes_of_string (memberObject kep)) :: ms, r).
Proof.
  intros Hplain Hfuel Hn. rewrite bytes_memberText, Hn, bytes_memberObject.
  pose proof (identifier_plain kep) as Hid.
  generalize dependent (identifier kep). intros key Hkey.
  change (16 + fuel)%nat with (S (15 + fuel)).
  rewrite (readMembers_step _
             (32 :: 123 :: 10 :: bytes_of_string (memberFields kep)
                ++ 9 :: 125 :: 44 :: 10 :: rest)
             (32 :: 123 :: (10 :: bytes_of_string (memberFields kep) ++ [9])
                ++ [125])
             (44 :: 10 :: rest) key).
  - change (15 + fuel)%nat with (S (14 + fuel)).
    rewrite (readMembers_eq _ (10 :: rest)).
    change (json.skipWs (10 :: ?x)) with (json.skipWs x).
    rewrite <- readMembers_eq. by rewrite trim_braces.
  - norm_app. reflexivity.
  - done.
  - norm_app. reflexivity.
  - by apply value_fields.
Qed.

(** The last member, before the brace that closes the object. *)
Lemma readMembers_last (total n : nat) (kep : Proposal) (rest : list Z)
    (fuel : nat) :
  scalarsPlain kep → (seqTotal kep < fuel)%nat →
  (S n <? total)%nat = false →
  readback.readMembers (16 + fuel)
    (bytes_of_string (memberText total n kep) ++ 125 :: rest)
  = Some ([(bytes_of_string (identifier kep),
            bytes_of_string (memberObject kep))], json.skipWs rest).
Proof.
  intros Hplain Hfuel Hn. rewrite bytes_memberText, Hn, bytes_memberObject.
  pose proof (identifier_plain kep) as Hid.
  generalize dependent (identifier kep). intros key Hkey.
  change (16 + fuel)%nat with (S (15 + fuel)).
  rewrite (readMembers_step _
             (32 :: 123 :: 10 :: bytes_of_string (memberFields kep)
                ++ 9 :: 125 :: 10 :: 125 :: rest)
             (32 :: 123 :: (10 :: bytes_of_string (memberFields kep) ++ [9])
                ++ [125; 10])
             (125 :: rest) key).
  - by rewrite trim_braces_nl.
  - norm_app. reflexivity.
  - done.
  - norm_app. reflexivity.
  - by apply (value_fields kep (10 :: 125 :: rest)).
Qed.

Lemma readMembers_all (total : nat) (proposals : Proposals) :
  ∀ (n fuel : nat) (rest : list Z),
    proposals ≠ [] →
    (n + length proposals = total)%nat →
    Forall scalarsPlain proposals →
    (length proposals + 16 + sum_list (seqTotal <$> proposals) < fuel)%nat →
    readback.readMembers fuel
      (bytes_of_string
         (concatAll (imap (λ k, memberText total (n + k)) proposals))
         ++ 125 :: rest)
    = Some ((λ kep, (bytes_of_string (identifier kep),
                      bytes_of_string (memberObject kep))) <$> proposals,
            json.skipWs rest).
Proof.
  induction proposals as [|kep ps IH]; intros n fuel rest Hne Hn Hplain Hfuel;
    [done|].
  apply Forall_cons in Hplain as [Hkep Hps].
  rewrite imap_cons. cbn [concatAll foldr].
  fold (concatAll (imap ((λ k, memberText total (n + k)) ∘ S) ps)).
  rewrite (imap_ext _ (λ k, memberText total (S n + k)))
    by (intros; simpl; f_equal; lia).
  rewrite Nat.add_0_r, bytes_of_string_app, <- app_assoc.
  rewrite sum_seqTotal_cons in Hfuel. cbn [length] in Hfuel, Hn.
  replace fuel with (16 + (fuel - 16))%nat by lia.
  destruct ps as [|kep' ps].
  - change (bytes_of_string (concatAll (imap _ [])) ++ ?x) with x.
    rewrite readMembers_last;
      [done | done | lia | apply Nat.ltb_ge; cbn [length] in Hn; lia].
  - rewrite readMembers_inner;
      [| done | lia | apply Nat.ltb_lt; cbn [length] in Hn; lia].
    rewrite IH; [done | done | cbn [length] in *; lia | done |].
    cbn [length] in *. lia.
Qed.

(** When the six quoted fields of every record are plain, a reader of the
    object finds one member per record, in the order of the collection:
    the key is the identifier of the record and the value the object of
    its fields. *)
Lemma ObjectMembers_objectText (proposals : Proposals) :
  Forall scalarsPlain proposals →
  readback.ObjectMembers (objectText proposals)
  = Some ((λ kep, (identifier kep, memberObject kep)) <$> proposals).
Proof.
  intros Hplain. destruct proposals as [|kep ps]; [reflexivity|].
  unfold readback.ObjectMembers, objectText, members. cbv zeta.
  change (imap (memberText ?total) ?l)
    with (imap (λ k, memberText total (0 + k)) l).
  set (text := concatAll (imap _ (kep :: ps))).
  assert (bytes_of_string ("{" +:+ nl +:+ text +:+ "}" +:+ nl)
          = 123 :: 10 :: bytes_of_string text ++ 125 :: [10]) as ->
    by (rewrite !bytes_of_string_app; reflexivity).
  pose proof (length_members_text (length (kep :: ps)) (kep :: ps) 0)
    as Hlen.
  fold text in Hlen.
  assert (∃ t, json.skipWs (10 :: bytes_of_string text ++ 125 :: [10])
               = 34 :: t) as [t Ht].
  { subst text. rewrite imap_cons. cbn [concatAll foldr].
    rewrite bytes_of_string_app, bytes_memberText. by eexists. }
  change (json.skipWs (123 :: ?x)) with (123 :: x). cbv iota.
  rewrite Ht. cbv iota.
  cbn [length] in *. rewrite length_app. cbn [length].
  rewrite readMembers_eq.
  change (json.skipWs (10 :: ?x)) with (json.skipWs x).
  rewrite <- readMembers_eq.
  rewrite sum_seqTotal_cons in Hlen. cbn [length] in Hlen.
  subst text.
  rewrite (readMembers_all (S (length ps)) (kep :: ps) 0); [|done..|].
  - cbn [json.skipWs]. simpl (_ =? _). cbn [orb]. f_equal.
    rewrite <- list_fmap_compose. apply list_fmap_ext.
    intros _ p _. unfold compose. cbn [fst snd].
    by rewrite !string_of_bytes_of_string.
  - rewrite sum_seqTotal_cons. cbn [length]. lia.
Qed.

(** X14.  After a successful run over documents whose six quoted fields
    are plain, a reader of the output file finds one top-level member per
    file found, in the order of the walk: the member at position [n] has
    the identifier of the proposal parsed from the file at position [n]
    as its key and the object of that proposal's fields as its value. *)
Theorem plain_members_in_order (dirPath filePath : string)
    (files : list string) (proposals : Proposals) (w : World) :
  flagsOk dirPath filePath →
  findMarkdownFiles dirPath = (files, None) →
  files ≠ [] →
  mapM document files = Some proposals →
  Create sys filePath = None →
  Forall scalarsPlain proposals →
  ∃ text found,
    fileText filePath (main dirPath filePath w) = Some text
    ∧ readback.ObjectMembers text = Some found
    ∧ length found = length files
    ∧ ∀ n f, files !! n = Some f →
        ∃ kep, document f = Some kep
               ∧ found !! n = Some (identifier kep, memberObject kep).
Proof.
  intros Hflags Hfind Hne Hdocs Hcreate Hplain.
  rewrite (main_success _ _ files proposals) by done.
  exists (objectText proposals). eexists.
  split; [unfold fileText; cbn [snd disk]; by rewrite lookup_insert_eq|].
  split; [by apply ObjectMembers_objectText|].
  split; [rewrite length_fmap; symmetry; by apply length_mapM in Hdocs|].
  intros n f Hn.
  destruct (documents_lookup _ _ _ _ Hdocs Hn) as (kep & Hdoc & Hkep).
  exists kep. split; [done|]. by rewrite list_lookup_fmap, Hkep.
Qed.

End kepify.

(** * Concrete runs *)

Example md5_empty :
  hexEncode (md5.Sum []) = "d41d8cd98f00b204e9800998ecf8427e".
Proof. vm_compute. reflexivity. Qed.

Example md5_abc :
  hexEncode (md5.Sum (bytes_of_string "abc"))
  = "900150983cd24fb0d6963f7d28e17f72".
Proof. vm_compute. reflexivity. Qed.

Example md5_len_56 :
  hexEncode (md5.Sum (repeat 97 56)) = "3b0c8ac703f828b04c6c197006d17218".
Proof. vm_compute. reflexivity. Qed.

Example md5_two_blocks :
  hexEncode (md5.Sum (repeat 97 120)) = "5f61c0ccad4cac44c75ff505e1f1e537".
Proof. vm_compute. reflexivity. Qed.

Example json_valid_samples :
  json.Valid "[1, -2.5e+3, true, false, null, {}, [[]]]" = true
  ∧ json.Valid "[1,]" = false
  ∧ json.Valid "[1 2]" = false
  ∧ json.Valid "01" = false
  ∧ json.Valid "{}{}" = false
  ∧ json.Valid ("{" +:+ dq +:+ "a" +:+ dq +:+ ": 1,}") = false
  ∧ json.Valid ("{" +:+ dq +:+ "a" +:+ dq +:+ ": " +:+ dq +:+ "b" +:+ bsl
                 +:+ "n" +:+ dq +:+ "}") = true.
Proof. repeat split; vm_compute; reflexivity. Qed.

Example hash_sig_title :
  hash sample.Quote "sig-x:Foo" = "4421cdd0fdda4bdfade34124b5c7af41".
Proof. vm_compute. reflexivity. Qed.

(** C2.  A title that holds a double quote is written between quotes as
    it is: the text of the member value is not a JSON string literal, while
    the body of the same record, which goes through [json.Marshal], reads
    back as it was. *)
Theorem title_written_unescaped :
  let text :=
    written (λ out, printProposal sample.Quote out 1 0 sample.quoted) in
  Title sample.quoted = "say " +:+ dq +:+ "hi" +:+ dq
  ∧ memberValue "title" text = Some (dq +:+ Title sample.quoted +:+ dq)
  ∧ json.Unquote (dq +:+ Title sample.quoted +:+ dq) = None
  ∧ (∃ v, memberValue "markdown" text = Some v
          ∧ json.Unquote v = Some (Contents sample.quoted)).
Proof.
  cbv zeta. split; [reflexivity|].
  split; [vm_compute; reflexivity|].
  split; [vm_compute; reflexivity|].
  eexists. split; [vm_compute; reflexivity|]. vm_compute. reflexivity.
Qed.

(** A title with a backslash is written as it is, too: the value is a
    string literal, but it reads back as another text. *)
Example backslash_title_reads_differently :
  let text :=
    written (λ out, printProposal sample.Quote out 1 0 sample.backslashed) in
  memberValue "title" text = Some (dq +:+ Title sample.backslashed +:+ dq)
  ∧ json.Unquote (dq +:+ Title sample.backslashed +:+ dq)
    = Some ("a" +:+ nl +:+ "b")
  ∧ Title sample.backslashed ≠ "a" +:+ nl +:+ "b".
Proof.
  cbv zeta. split; [vm_compute; reflexivity|].
  split; [vm_compute; reflexivity|]. vm_compute. discriminate.
Qed.

(** C3.  The object written for a single record whose title holds a double
    quote is not valid JSON; the object written for a record whose strings
    need no escaping is. *)
Theorem quoted_title_breaks_object :
  (∃ text,
     fileText "keps.json"
       (printJSONOutput sample.Quote sample.sys "keps.json" [sample.quoted]
          emptyWorld) = Some text
     ∧ json.Valid text = false)
  ∧ (∃ text,
       fileText "keps.json"
         (printJSONOutput sample.Quote sample.sys "keps.json"
            [sample.simple; sample.simple] emptyWorld) = Some text
       ∧ json.Valid text = true).
Proof.
  split.
  - eexists. split; [vm_compute; reflexivity|]. vm_compute. reflexivity.
  - eexists. split; [vm_compute; reflexivity|]. vm_compute. reflexivity.
Qed.

(** C4, at a title that closes its own quotes and braces.  The run over
    the two documents of [injection.sys] ends with status 0 and its output
    is valid JSON, but a reader finds three top-level members for the two
    documents: the second member has the key [k2], which the title of the
    first document brought in, and the proposal of the second document
    stands at the third position.  The defect is that of C2: the title is
    written between quotes without escaping. *)
Theorem injected_title_shifts_members :
  let run :=
    main sample.Quote sample.Join sample.Parse injection.sys
      "keps" "keps.json" emptyWorld in
  let second :=
    (identifier injection.second, memberObject injection.second) in
  findMarkdownFiles sample.Join injection.sys "keps"
  = (injection.found, None)
  ∧ mapM (document sample.Parse injection.sys) injection.found
    = Some [injection.first; injection.second]
  ∧ status run = 0
  ∧ ∃ text found,
      fileText "keps.json" run = Some text
      ∧ json.Valid text = true
      ∧ readback.ObjectMembers text = Some found
      ∧ length found = 3%nat
      ∧ found.*1
        = [identifier injection.first; "k2"; identifier injection.second]
      ∧ found !! 1%nat ≠ Some second
      ∧ found !! 2%nat = Some second.
Proof.
  cbv zeta. split; [vm_compute; reflexivity|].
  split; [vm_compute; reflexivity|]. split; [vm_compute; reflexivity|].
  eexists _, _. split; [vm_compute; reflexivity|].
  split; [vm_compute; reflexivity|]. split; [vm_compute; reflexivity|].
  split; [reflexivity|]. split; [vm_compute; reflexivity|].
  split; [vm_compute; discriminate|]. vm_compute. reflexivity.
Qed.

(** C6, as stated, fails: a nil slice has no elements, and it is written
    [null], not [[]]; an empty slice that is not nil is written [[]]. *)
Lemma nil_sequence_written_null :
  let text :=
    written (λ out, printProposal sample.Quote out 1 0 sample.simple) in
  len (ParticipatingSIGs sample.simple) = 0%nat
  ∧ memberValue "participating-sigs" text = Some "null"
  ∧ memberValue "participating-sigs" text ≠ Some "[]"
  ∧ len (Authors sample.simple) = 0%nat
  ∧ memberValue "authors" text = Some "[]".
Proof.
  cbv zeta. split; [reflexivity|]. split; [vm_compute; reflexivity|].
  split; [vm_compute; discriminate|]. split; [reflexivity|].
  vm_compute. reflexivity.
Qed.

(** ** The theorems at the sample inputs *)

Lemma sample_flagsOk (sys : OS) :
  StatNotExist sys "keps" = false → flagsOk sys "keps" "keps.json".
Proof. intros Hstat. split; [simpl; lia|]. split; [done | simpl; lia]. Defined.

Lemma identifier_key_witness :
  keyOf (written (λ f, printProposal sample.Quote f (Z.of_nat 2) (Z.of_nat 0)
                         sample.beta))
  = Some (hexEncode (md5.Sum (bytes_of_string
                                (OwningSIG sample.beta +:+ ":"
                                   +:+ Title sample.beta))))
  ∧ keyOf (written (λ f, printProposal sample.Quote f (Z.of_nat 5)
                           (Z.of_nat 3) sample.betaRevised))
    = keyOf (written (λ f, printProposal sample.Quote f (Z.of_nat 2)
                             (Z.of_nat 0) sample.beta)).
Proof.
  apply (identifier_key sample.Quote sample.beta sample.betaRevised);
    reflexivity.
Defined.

Lemma findMarkdownFiles_eligible_witness :
  findMarkdownFiles sample.Join sample.sys "keps"
  = ((List.filter (λ pn, eligible pn.2)
        (treePaths sample.Join "keps" (Tree sample.sys "keps"))).*1,
     None).
Proof.
  apply (findMarkdownFiles_eligible sample.Join sample.sys "keps").
  reflexivity.
Defined.

Lemma md_suffix_without_dot_witness :
  ignore ("road" +:+ "md") = false
  ∧ "keps/sig-b/roadmd" ∈ (findMarkdownFiles sample.Join sample.sys "keps").1.
Proof.
  apply (md_suffix_without_dot sample.Join sample.sys "keps" "road"
           "keps/sig-b/roadmd").
  - reflexivity.
  - vm_compute. repeat constructor.
  - apply (proj1 (bool_decide_eq_false _)). vm_compute. reflexivity.
Defined.

Lemma no_documents_exit_witness :
  ∃ msg,
    main sample.Quote sample.Join sample.Parse sample.sysEmpty
      "keps" "keps.json" emptyWorld
    = (Exit 1, complain msg emptyWorld)
    ∧ (treeOk (Tree sample.sysEmpty "keps") = true →
       msg = "did not find any KEPs" +:+ nl).
Proof.
  apply (no_documents_exit sample.Quote sample.Join sample.Parse
           sample.sysEmpty "keps" "keps.json" emptyWorld).
  - apply sample_flagsOk. reflexivity.
  - vm_compute. repeat (constructor; [reflexivity|]). constructor.
Defined.

Lemma parse_error_aborts_witness :
  main sample.Quote sample.Join sample.Parse sample.sysBroken
    "keps" "keps.json" emptyWorld
  = (Exit 1,
     {| stdout := stdout emptyWorld
                    +:+ concatAll (map successLine ["keps/alpha.md"]);
        stderr := stderr emptyWorld +:+ "error parsing files: "
                    +:+ sample.Quote
                          ("keps/broken.md" +:+ " has an error: "
                             +:+ sample.Quote
                                   (errors.Error
                                      (errors.New "no metadata block"))
                             +:+ nl)
                    +:+ nl;
        disk := disk emptyWorld |}).
Proof.
  apply (parse_error_aborts sample.Quote sample.Join sample.Parse
           sample.sysBroken "keps" "keps.json" "keps/broken.md"
           "no title here" ["keps/alpha.md"] ["keps/sig-b/beta.md"]
           [sample.proposal "Alpha" "sig-a" "one"]
           (errors.New "no metadata block") emptyWorld).
  - apply sample_flagsOk. reflexivity.
  - vm_compute. reflexivity.
  - vm_compute. reflexivity.
  - reflexivity.
  - reflexivity.
Defined.

Lemma members_in_traversal_order_witness :
  fileText "keps.json"
    (main sample.Quote sample.Join sample.Parse sample.sys
       "keps" "keps.json" emptyWorld)
  = Some ("{" +:+ nl +:+ concatAll (members sample.parsed) +:+ "}" +:+ nl)
  ∧ length (members sample.parsed) = length sample.found
  ∧ ∀ n f, sample.found !! n = Some f →
      ∃ kep text,
        document sample.Parse sample.sys f = Some kep
        ∧ text = written (λ out, printProposal sample.Quote out
                                   (Z.of_nat (length sample.found))
                                   (Z.of_nat n) kep)
        ∧ members sample.parsed !! n = Some text
        ∧ keyOf text = Some (identifier kep).
Proof.
  apply (members_in_traversal_order sample.Quote sample.Join sample.Parse
           sample.sys "keps" "keps.json" sample.found sample.parsed
           emptyWorld).
  - apply sample_flagsOk. reflexivity.
  - vm_compute. reflexivity.
  - discriminate.
  - vm_compute. reflexivity.
  - reflexivity.
Defined.

(** The members stand in the order of the walk, not in the order of their
    keys. *)
Example sample_keys_not_sorted :
  omap keyOf (members sample.parsed)
  = [ "e6c670341da03f45174ba089255ef981";
      "e6c670341da03f45174ba089255ef981";
      "8a82ee99a2e02eda9162834193e80dab" ].
Proof. vm_compute. reflexivity. Qed.

Lemma duplicate_identifiers_kept_witness :
  let run :=
    main sample.Quote sample.Join sample.Parse sample.sys
      "keps" "keps.json" emptyWorld in
  let member (i : nat) (kep : Proposal) :=
    written (λ out, printProposal sample.Quote out
                      (Z.of_nat (length sample.found)) (Z.of_nat i) kep) in
  let km := sample.proposal "Beta" "sig-b" "two" in
  let kn := sample.proposal "Beta" "sig-b" "again" in
  (parseFiles sample.Quote sample.Parse sample.sys sample.found emptyWorld).1
  = Return (inr sample.parsed)
  ∧ sample.parsed !! 0%nat = Some km ∧ sample.parsed !! 1%nat = Some kn
  ∧ status run = 0 ∧ stderr run.2 = stderr emptyWorld
  ∧ fileText "keps.json" run
    = Some ("{" +:+ nl +:+ concatAll (members sample.parsed) +:+ "}" +:+ nl)
  ∧ length (members sample.parsed) = length sample.found
  ∧ members sample.parsed !! 0%nat = Some (member 0%nat km)
  ∧ members sample.parsed !! 1%nat = Some (member 1%nat kn)
  ∧ keyOf (member 0%nat km) = Some (identifier km)
  ∧ keyOf (member 1%nat kn) = Some (identifier km).
Proof.
  apply (duplicate_identifiers_kept sample.Quote sample.Join sample.Parse
           sample.sys "keps" "keps.json" sample.found sample.parsed
           emptyWorld 0%nat 1%nat "keps/sig-b/beta.md" "keps/sig-b/roadmd").
  - apply sample_flagsOk. reflexivity.
  - vm_compute. reflexivity.
  - vm_compute. reflexivity.
  - reflexivity.
  - lia.
  - reflexivity.
  - vm_compute. reflexivity.
  - reflexivity.
  - vm_compute. reflexivity.
  - reflexivity.
  - reflexivity.
Defined.

(** ** The further properties at sample inputs *)

Lemma walk_failure_exit_witness :
  main sample.Quote sample.Join sample.Parse failing.sysUnreadable
    "keps" "keps.json" emptyWorld
  = (Exit 1,
     complain ("unable to find markdown files: "
                 +:+ errors.Error
                       (errors.New
                          "open keps/sig-b/private: permission denied")
                 +:+ nl) emptyWorld).
Proof.
  apply (walk_failure_exit sample.Quote sample.Join sample.Parse
           failing.sysUnreadable "keps" "keps.json"
           (errors.New "open keps/sig-b/private: permission denied")
           emptyWorld).
  - apply sample_flagsOk. reflexivity.
  - vm_compute. reflexivity.
Defined.

Lemma flag_checks_exit_witness :
  main sample.Quote sample.Join sample.Parse failing.sysMissing
    "keps" "keps.json" emptyWorld
  = (Exit 1, say ("directory does not exist : " +:+ "keps") emptyWorld).
Proof.
  apply (flag_checks_exit sample.Quote sample.Join sample.Parse
           failing.sysMissing "keps" "keps.json" emptyWorld).
  intros (_ & Hstat & _). simpl in Hstat. discriminate.
Defined.

Lemma open_error_aborts_witness :
  main sample.Quote sample.Join sample.Parse failing.sysLocked
    "keps" "keps.json" emptyWorld
  = (Exit 1,
     {| stdout := stdout emptyWorld
                    +:+ concatAll (map successLine ["keps/alpha.md"]);
        stderr := stderr emptyWorld +:+ "error parsing files: "
                    +:+ sample.Quote
                          ("could not open file: "
                             +:+ errors.Error
                                   (errors.New
                                      "open keps/locked.md: permission denied")
                             +:+ nl)
                    +:+ nl;
        disk := disk emptyWorld |}).
Proof.
  apply (open_error_aborts sample.Quote sample.Join sample.Parse
           failing.sysLocked "keps" "keps.json" "keps/locked.md"
           ["keps/alpha.md"] ["keps/zeta.md"]
           [sample.proposal "Alpha" "sig-a" "one"]
           (errors.New "open keps/locked.md: permission denied") emptyWorld).
  - apply sample_flagsOk. reflexivity.
  - vm_compute. reflexivity.
  - vm_compute. reflexivity.
  - vm_compute. reflexivity.
Defined.

Lemma create_error_exit_witness :
  main sample.Quote sample.Join sample.Parse failing.sysReadOnly
    "keps" "keps.json" emptyWorld
  = (Exit 1,
     {| stdout := stdout emptyWorld
                    +:+ concatAll (map successLine ["keps/alpha.md"])
                    +:+ ("Output file: " +:+ "keps.json" +:+ nl);
        stderr := stderr emptyWorld +:+ "could not open file: "
                    +:+ errors.Error
                          (errors.New
                             "open keps.json: read-only file system")
                    +:+ nl;
        disk := disk emptyWorld |}).
Proof.
  apply (create_error_exit sample.Quote sample.Join sample.Parse
           failing.sysReadOnly "keps" "keps.json" ["keps/alpha.md"]
           [sample.proposal "Alpha" "sig-a" "one"]
           (errors.New "open keps.json: read-only file system") emptyWorld).
  - apply sample_flagsOk. reflexivity.
  - vm_compute. reflexivity.
  - discriminate.
  - vm_compute. reflexivity.
  - vm_compute. reflexivity.
Defined.

Lemma successful_run_witness :
  let run :=
    main sample.Quote sample.Join sample.Parse sample.sys
      "keps" "keps.json" emptyWorld in
  status run = 0
  ∧ stdout run.2
    = stdout emptyWorld +:+ concatAll (map successLine sample.found)
        +:+ ("Output file: " +:+ "keps.json" +:+ nl)
        +:+ ("Total KEPs: " +:+ pretty (Z.of_nat (length sample.found))
               +:+ nl)
  ∧ stderr run.2 = stderr emptyWorld
  ∧ disk run.2 !! "keps.json" = Some (objectText sample.parsed)
  ∧ ∀ path, path ≠ "keps.json" →
      disk run.2 !! path = disk emptyWorld !! path.
Proof.
  apply (successful_run sample.Quote sample.Join sample.Parse sample.sys
           "keps" "keps.json" sample.found sample.parsed emptyWorld).
  - apply sample_flagsOk. reflexivity.
  - vm_compute. reflexivity.
  - discriminate.
  - vm_compute. reflexivity.
  - reflexivity.
Defined.

Lemma colon_shift_same_key_witness :
  let k1 := sample.proposal "c" "a:b" "one" in
  let k2 := sample.proposal "b:c" "a" "two" in
  hash sample.Quote (OwningSIG k1 +:+ ":" +:+ Title k1)
  = hash sample.Quote (OwningSIG k2 +:+ ":" +:+ Title k2)
  ∧ keyOf (written (λ out, printProposal sample.Quote out (Z.of_nat 2)
                             (Z.of_nat 0) k1))
    = keyOf (written (λ out, printProposal sample.Quote out (Z.of_nat 2)
                               (Z.of_nat 1) k2)).
Proof.
  apply (colon_shift_same_key sample.Quote
           (sample.proposal "c" "a:b" "one") (sample.proposal "b:c" "a" "two")
           "a" "b" "c" 2 0 2 1);
    reflexivity.
Defined.

Lemma plain_collection_valid_witness :
  ∃ text,
    fileText "keps.json"
      (printJSONOutput sample.Quote sample.sys "keps.json" sample.parsed
         emptyWorld)
    = Some text
    ∧ json.Valid text = true.
Proof.
  apply (plain_collection_valid sample.Quote sample.sys "keps.json"
           sample.parsed emptyWorld).
  - reflexivity.
  - vm_compute. repeat constructor.
Defined.

Lemma plain_members_in_order_witness :
  ∃ text found,
    fileText "keps.json"
      (main sample.Quote sample.Join sample.Parse sample.sys
         "keps" "keps.json" emptyWorld)
    = Some text
    ∧ readback.ObjectMembers text = Some found
    ∧ length found = length sample.found
    ∧ ∀ n f, sample.found !! n = Some f →
        ∃ kep, document sample.Parse sample.sys f = Some kep
               ∧ found !! n = Some (identifier kep, memberObject kep).
Proof.
  apply (plain_members_in_order sample.Quote sample.Join sample.Parse
           sample.sys "keps" "keps.json" sample.found sample.parsed
           emptyWorld).
  - apply sample_flagsOk. reflexivity.
  - vm_compute. reflexivity.
  - discriminate.
  - vm_compute. reflexivity.
  - reflexivity.
  - vm_compute. repeat constructor.
Defined.
